(** * müllbot: a Telegram bot that reminds of waste-collection dates

    Shallow embedding of [src/müllbot.py] together with the library calls it
    makes (Python's [str], [int], [datetime], the regular expression behind
    [datetime.strptime], and the job queue of python-telegram-bot), followed
    by the properties of the handlers [add], [remove], [show_list] and of the
    callback [alarm].

    Part I holds the embedding, Part II the lemmas and theorems. *)

From Stdlib Require Import ZArith Lia Ascii.
From stdpp Require Import base option list gmap strings pretty sorting.

Local Open Scope Z_scope.

(** * Part I: the embedding *)

(** ** Python exceptions raised on the paths the bot exercises *)

Inductive exn :=
| ValueError
| OverflowError
| KeyError (key : string)
| AttributeError.

(** ** Python strings (over the ASCII alphabet) *)

Module PyStr.

Fixpoint last (s : string) : option ascii :=
  match s with
  | "" => None
  | String c "" => Some c
  | String _ s' => last s'
  end.

(** [c * n] *)
Fixpoint replicate (n : nat) (c : ascii) : string :=
  match n with O => "" | S n' => String c (replicate n' c) end.

(** [s.zfill(w)] for a string of digits: left-padded with zeros up to width
    [w], never truncated. *)
Definition zfill (w : nat) (s : string) : string :=
  replicate (w - String.length s) "0" +:+ s.

(** ["%0wd" % n] for a non-negative integer [n]. *)
Definition fmt0 (w : nat) (n : Z) : string := zfill w (pretty n).

(** [sep.join(l)] *)
Fixpoint join (sep : string) (l : list string) : string :=
  match l with
  | [] => ""
  | [x] => x
  | x :: l' => x +:+ sep +:+ join sep l'
  end.

(** [s.split(sep)] for a one-character separator: the pieces between
    separators, empty pieces included. [cur] is the current piece, reversed. *)
Fixpoint split_go (sep : ascii) (cur : string) (s : string) : list string :=
  match s with
  | "" => [String.rev cur]
  | String c s' =>
      if Ascii.eqb c sep then String.rev cur :: split_go sep "" s'
      else split_go sep (String c cur) s'
  end.
Definition split (sep : ascii) (s : string) : list string := split_go sep "" s.

(** Character classes [[lo-hi]] and [\d]. *)
Definition in_range (lo hi c : ascii) : bool :=
  (N_of_ascii lo <=? N_of_ascii c)%N && (N_of_ascii c <=? N_of_ascii hi)%N.

Definition is_digit (c : ascii) : bool := in_range "0" "9" c.

Definition digit_value (c : ascii) : Z := Z.of_N (N_of_ascii c) - 48.

Fixpoint lstrip (s : string) : string :=
  match s with
  | String c s' => if Ascii.is_space c then lstrip s' else s
  | "" => ""
  end.

Fixpoint int_digits (acc : Z) (s : string) : exn + Z :=
  match s with
  | "" => inr acc
  | String c s' =>
      if is_digit c then int_digits (10 * acc + digit_value c) s'
      else inl ValueError
  end.

(** [int(s)] on what the [strptime] groups can capture: optional leading
    white space followed by decimal digits. *)
Definition int (s : string) : exn + Z :=
  match lstrip s with
  | "" => inl ValueError
  | ds => int_digits 0 ds
  end.

End PyStr.

(** ** Backtracking regular expressions, as far as [strptime] needs them *)

Module Re.

Inductive re :=
| Chr (lo hi : ascii)       (* [lo-hi]; a literal when [lo = hi] *)
| Seq (r1 r2 : re)          (* r1 r2 *)
| Alt (r1 r2 : re).         (* r1|r2 *)

(** All the ways [r] matches a prefix of [s], as (matched text, rest), in the
    order a backtracking matcher tries them: the left alternative first, and
    for a sequence every continuation of an earlier match of the head before
    any later one. *)
Fixpoint matches (r : re) (s : string) : list (string * string) :=
  match r with
  | Chr lo hi =>
      match s with
      | String c s' => if PyStr.in_range lo hi c then [(String c "", s')] else []
      | "" => []
      end
  | Seq r1 r2 =>
      '(m1, s1) ← matches r1 s;
      '(m2, s2) ← matches r2 s1;
      mret (m1 +:+ m2, s2)
  | Alt r1 r2 => matches r1 s ++ matches r2 s
  end.

Definition lit (c : ascii) : re := Chr c c.
Definition digit : re := Chr "0" "9".

End Re.

(** ** Python's [datetime] *)

Module Datetime.

Import Re.

Definition MINYEAR : Z := 1.
Definition MAXYEAR : Z := 9999.
Definition MAXORDINAL : Z := 3652059.

Definition DAYS_IN_MONTH : list Z :=
  [-1; 31; 28; 31; 30; 31; 30; 31; 31; 30; 31; 30; 31].

Definition DAYS_BEFORE_MONTH : list Z :=
  [-1; 0; 31; 59; 90; 120; 151; 181; 212; 243; 273; 304; 334].

(** [l[i]] for an index within the list. *)
Definition getitem (l : list Z) (i : Z) : Z := nth (Z.to_nat i) l 0.

Definition is_leap (year : Z) : bool :=
  (year mod 4 =? 0) && (negb (year mod 100 =? 0) || (year mod 400 =? 0)).

Definition days_before_year (year : Z) : Z :=
  let y := year - 1 in
  y * 365 + y / 4 - y / 100 + y / 400.

Definition days_in_month (year month : Z) : Z :=
  if (month =? 2) && is_leap year then 29 else getitem DAYS_IN_MONTH month.

Definition days_before_month (year month : Z) : Z :=
  getitem DAYS_BEFORE_MONTH month
  + (if (2 <? month) && is_leap year then 1 else 0).

Definition ymd2ord (year month day : Z) : Z :=
  days_before_year year + days_before_month year month + day.

Definition DI400Y : Z := Eval cbv in days_before_year 401.
Definition DI100Y : Z := Eval cbv in days_before_year 101.
Definition DI4Y : Z := Eval cbv in days_before_year 5.

Definition ord2ymd (n : Z) : Z * Z * Z :=
  let n := n - 1 in
  let n400 := n / DI400Y in
  let n := n mod DI400Y in
  let year := n400 * 400 + 1 in
  let n100 := n / DI100Y in
  let n := n mod DI100Y in
  let n4 := n / DI4Y in
  let n := n mod DI4Y in
  let n1 := n / 365 in
  let n := n mod 365 in
  let year := year + (n100 * 100 + n4 * 4 + n1) in
  if (n1 =? 4) || (n100 =? 4) then (year - 1, 12, 31)
  else
    let leapyear := (n1 =? 3) && (negb (n4 =? 24) || (n100 =? 3)) in
    let month := Z.shiftr (n + 50) 5 in
    let preceding :=
      getitem DAYS_BEFORE_MONTH month
      + (if (2 <? month) && leapyear then 1 else 0) in
    if n <? preceding then
      let month := month - 1 in
      let preceding :=
        preceding
        - (getitem DAYS_IN_MONTH month
           + (if (month =? 2) && leapyear then 1 else 0)) in
      (year, month, n - preceding + 1)
    else (year, month, n - preceding + 1).

(** A naive [datetime] (no time zone, microsecond 0). *)
Record datetime := mk_datetime {
  year : Z; month : Z; day : Z;
  hour : Z; minute : Z; second : Z
}.

Global Instance datetime_eq_dec : EqDecision datetime.
Proof. solve_decision. Defined.

(** The field check of the [date] constructor. *)
Definition check_date_fields (y m d : Z) : bool :=
  (MINYEAR <=? y) && (y <=? MAXYEAR) &&
  (1 <=? m) && (m <=? 12) &&
  (1 <=? d) && (d <=? days_in_month y m).

Definition toordinal (dt : datetime) : Z :=
  ymd2ord (year dt) (month dt) (day dt).

(** [dt - timedelta(days=n)]: the date moves through its ordinal, the time
    of day is kept; out of the range of ordinals it is an [OverflowError]. *)
Definition sub_days (dt : datetime) (n : Z) : exn + datetime :=
  let days := toordinal dt - n in
  if (0 <? days) && (days <=? MAXORDINAL) then
    let '(y, m, d) := ord2ymd days in
    inr (mk_datetime y m d (hour dt) (minute dt) (second dt))
  else inl OverflowError.

(** [str(dt)], that is [dt.isoformat(sep=' ')]. *)
Definition str (dt : datetime) : string :=
  PyStr.fmt0 4 (year dt) +:+ "-" +:+ PyStr.fmt0 2 (month dt) +:+ "-"
  +:+ PyStr.fmt0 2 (day dt) +:+ " " +:+ PyStr.fmt0 2 (hour dt) +:+ ":"
  +:+ PyStr.fmt0 2 (minute dt) +:+ ":" +:+ PyStr.fmt0 2 (second dt).

(** Naive datetimes compare as instants: by date, then by time of day. *)
Definition to_seconds (dt : datetime) : Z :=
  toordinal dt * 86400 + hour dt * 3600 + minute dt * 60 + second dt.

Definition le (a b : datetime) : Prop := to_seconds a <= to_seconds b.

Global Instance le_dec : RelDecision le.
Proof. intros a b. unfold le. apply _. Defined.

(** The regular expressions [_strptime] uses for [%d], [%m] and [%Y]:
    [3[0-1]|[1-2]\d|0[1-9]|[1-9]| [1-9]], [1[0-2]|0[1-9]|[1-9]] and
    [\d\d\d\d]. *)
Definition re_d : re :=
  Alt (Seq (lit "3") (Chr "0" "1"))
 (Alt (Seq (Chr "1" "2") digit)
 (Alt (Seq (lit "0") (Chr "1" "9"))
 (Alt (Chr "1" "9")
      (Seq (lit " ") (Chr "1" "9"))))).

Definition re_m : re :=
  Alt (Seq (lit "1") (Chr "0" "2"))
 (Alt (Seq (lit "0") (Chr "1" "9"))
      (Chr "1" "9")).

Definition re_Y : re := Seq digit (Seq digit (Seq digit digit)).

(** The compiled format "%d.%m.%Y" matched at the start of [data_string]:
    the groups d, m, Y of the first successful match and the unconsumed
    rest. *)
Definition format_regex_match (data_string : string)
  : option (string * string * string * string) :=
  head ('(d, s1) ← matches re_d data_string;
        '(_, s2) ← matches (lit ".") s1;
        '(m, s3) ← matches re_m s2;
        '(_, s4) ← matches (lit ".") s3;
        '(Y, s5) ← matches re_Y s4;
        mret (d, m, Y, s5)).

(** [datetime.strptime(data_string, "%d.%m.%Y")]: no match, unconverted
    data after the match, or fields that are no calendar date are each a
    [ValueError]. *)
Definition strptime (data_string : string) : exn + datetime :=
  match format_regex_match data_string with
  | None => inl ValueError
  | Some (d, m, Y, rest) =>
      if bool_decide (rest ≠ "") then inl ValueError
      else
        match PyStr.int Y, PyStr.int m, PyStr.int d with
        | inr y, inr mo, inr dd =>
            if check_date_fields y mo dd then inr (mk_datetime y mo dd 0 0 0)
            else inl ValueError
        | _, _, _ => inl ValueError
        end
  end.

End Datetime.

Export Datetime (datetime, mk_datetime).

(** ** The job queue of python-telegram-bot, as the bot uses it *)

Module JobQueue.

(** The values the bot stores in a job's context dictionary. *)
Inductive value :=
| VInt (n : Z)
| VStr (s : string)
| VDatetime (d : datetime).

Global Instance value_eq_dec : EqDecision value.
Proof. solve_decision. Defined.

(** [str(v)], as it names a missing key in a [KeyError]. *)
Definition value_str (v : value) : string :=
  match v with
  | VInt n => pretty n
  | VStr s => s
  | VDatetime d => Datetime.str d
  end.

(** A job of the queue: its name, the time it is to run at, and the context
    dictionary handed to its callback. The only callback the bot ever
    registers is [alarm], so it is not recorded. *)
Record Job := mk_job {
  name : string;
  when : datetime;
  context : gmap string value
}.

Global Instance Job_eq_dec : EqDecision Job.
Proof. solve_decision. Defined.

(** The library does not document the order in which [jobs()] enumerates the
    queue, only that it holds exactly the scheduled jobs. The position at
    which [run_once] files a new job is therefore an interface with one law:
    the queue afterwards holds the new job and the old ones. *)
Class Policy := {
  enqueue : Job → list Job → list Job;
  enqueue_perm : ∀ j q, enqueue j q ≡ₚ j :: q
}.

(** Jobs enumerated in the order they were added. *)
Program Definition fifo : Policy := {| enqueue j q := q ++ [j] |}.
Next Obligation. intros j q. by rewrite Permutation_app_comm. Qed.

(** Jobs enumerated by the time they run at, earliest first; among equal
    times, in the order they were added. *)
Fixpoint insert_by_time (j : Job) (q : list Job) : list Job :=
  match q with
  | [] => [j]
  | j' :: q' =>
      if decide (Datetime.le (when j') (when j))
      then j' :: insert_by_time j q'
      else j :: q
  end.

Program Definition by_run_time : Policy := {| enqueue := insert_by_time |}.
Next Obligation.
  intros j q. induction q as [|j' q IH]; simpl; [done|].
  case_decide; [|done]. rewrite IH. apply perm_swap.
Qed.

(** [job.schedule_removal()]: that job leaves the queue. Jobs are compared
    by their fields; two jobs equal in every field are indistinguishable. *)
Fixpoint remove_job (j : Job) (q : list Job) : list Job :=
  match q with
  | [] => []
  | j' :: q' => if decide (j' = j) then q' else j' :: remove_job j q'
  end.

End JobQueue.

Export JobQueue (value, VInt, VStr, VDatetime, Job, mk_job).

(** ** The bot's world *)

(** What [PicklePersistence] writes to its file and reads back at start-up:
    the user, chat and bot dictionaries. The job queue is not part of it. *)
Record Pickle := mk_pickle {
  user_data : gmap Z (gmap string value);
  chat_data : gmap Z (gmap string value);
  bot_data : gmap string value
}.

(** The texts the bot sends. *)
Inductive Text :=
| Hi (help : string)
    (* f'Hi! Use \n{addhelptext}\n to add a trash date' *)
| WrongInput (help : string)
    (* f'Wrong input use {help}.' *)
| DateWrong (help : string)
    (* f'Given date was wrong, use {help}' *)
| InvalidTrashType (types : string)
    (* f'Invalid trash type, use one of{types}' *)
| Noted (trash_type : string) (due : string)
    (* f'Noted {trash_type} for {due}.' *)
| Removed
    (* 'Trash date succesfully removed.' *)
| CouldNotRemove
    (* 'Could not remove trash date.' *)
| Dates (entries : list (datetime * value))
    (* the header '*I have noted the following dates:*' and one line
       f'{duedate}  {trash_type}' for each entry *)
| TrashDate (trash_type : value) (emoji : list N).
    (* '*Tomorrow is trash date\!*' between dustbins, then
       f'_{trash_type}_: {emoji}' *)

Record Message := mk_message { chat : value; text : Text }.

(** The job queue lives in the memory of the process, the pickle in its file;
    the outbox records what has been sent to Telegram. *)
Record State := mk_state {
  job_queue : list Job;
  persistence : Pickle;
  outbox : list Message
}.

(** Handlers run in a state-and-exception monad; the effects of a handler
    that raises stay in place. *)
Definition M (A : Type) : Type := State → (exn + A) * State.

Global Instance M_ret : MRet M := λ A x st, (inr x, st).

Global Instance M_bind : MBind M := λ A B f m st,
  match m st with
  | (inr x, st') => f x st'
  | (inl e, st') => (inl e, st')
  end.

Definition raise {A} (e : exn) : M A := λ st, (inl e, st).

Definition lift {A} (r : exn + A) : M A := λ st, (r, st).

(** [try: m / except Exception: pass] *)
Definition try_ (m : M ()) : M () := λ st, (inr (), (m st).2).

(** [for x in l: body(x)] *)
Fixpoint for_each {A} (l : list A) (body : A → M ()) : M () :=
  match l with
  | [] => mret ()
  | x :: l' => _ ← body x; for_each l' body
  end.

(** [d[key]] *)
Definition getitem {V} (d : gmap string V) (key : string) : M V :=
  match d !! key with
  | Some v => mret v
  | None => raise (KeyError key)
  end.

Definition send_message (chat_id : value) (t : Text) : M () := λ st,
  (inr (), mk_state (job_queue st) (persistence st)
                    (outbox st ++ [mk_message chat_id t])).

(** [update.message.reply_text(t)], in the chat the update came from. *)
Definition reply_text (chat_id : Z) (t : Text) : M () :=
  send_message (VInt chat_id) t.

Section Bot.

Context {policy : JobQueue.Policy}.

(** *** The four calls into [context.job_queue] *)

Definition jobs : M (list Job) := λ st, (inr (job_queue st), st).

Definition get_jobs_by_name (name : string) : M (list Job) :=
  js ← jobs; mret (filter (λ j, JobQueue.name j = name) js).

Definition schedule_removal (job : Job) : M () := λ st,
  (inr (), mk_state (JobQueue.remove_job job (job_queue st))
                    (persistence st) (outbox st)).

Definition run_once (when : datetime) (context : gmap string value)
    (name : string) : M Job := λ st,
  let job := mk_job name when context in
  (inr job, mk_state (JobQueue.enqueue job (job_queue st))
                     (persistence st) (outbox st)).

(** *** müllbot.py *)

Definition emojis : gmap string (list N) :=
  list_to_map
    [("bio", [0x1F346; 0x1F955; 0x1F96C; 0x1F966]%N);
     ("rest", [0x1F961]%N);
     ("papier", [0x1F4DC; 0x1F4F0; 0x1F3AB]%N);
     ("plastik", [0x2678; 0x1F36C]%N)].

Definition trashtypes : list string :=
  PyStr.split "/" "bio/rest/papier/plastik".

Definition helptext (cmd : string) : string :=
  cmd +:+ " dd.mm.yyyy [" +:+ PyStr.join "/" trashtypes +:+ "]".
Definition addhelptext : string := helptext "/add".
Definition removehelptext : string := helptext "/remove".

Definition start (chat_id : Z) : M () :=
  reply_text chat_id (Hi addhelptext).

Definition alarm (job : Job) : M () :=
  trash_type ← getitem (JobQueue.context job) "trash_type";
  chat_id ← getitem (JobQueue.context job) "chat_id";
  emoji ← match trash_type with
          | VStr t => getitem emojis t
          | key => raise (KeyError (JobQueue.value_str key))
          end;
  send_message chat_id (TrashDate trash_type emoji).

Definition remove_job_if_exists (name : string) : M bool :=
  current_jobs ← get_jobs_by_name name;
  if bool_decide (current_jobs = []) then mret false
  else
    _ ← for_each current_jobs schedule_removal;
    mret true.

Definition build_job_id (chat_id : Z) (due : datetime) (trash_type : string)
  : string :=
  pretty chat_id +:+ Datetime.str due +:+ trash_type.

Definition add (chat_id : Z) (args : list string) : M () :=
  match args with
  | [arg0; arg1] =>
      match Datetime.strptime arg0 with
      | inl ValueError => reply_text chat_id (DateWrong addhelptext)
      | inl e => raise e
      | inr due =>
          let trash_type := arg1 in
          if bool_decide (trash_type ∉ trashtypes) then
            reply_text chat_id (InvalidTrashType (PyStr.join "," trashtypes))
          else
            let job_identifier := build_job_id chat_id due trash_type in
            _ ← remove_job_if_exists job_identifier;
            let cbcontext : gmap string value :=
              {[ "chat_id" := VInt chat_id;
                 "trash_type" := VStr trash_type;
                 "due" := VDatetime due ]} in
            _ ← reply_text chat_id (Noted trash_type (Datetime.str due));
            alarm_due ← lift (Datetime.sub_days due 1);
            _ ← run_once alarm_due cbcontext job_identifier;
            mret ()
      end
  | _ => reply_text chat_id (WrongInput addhelptext)
  end.

Definition remove (chat_id : Z) (args : list string) : M () :=
  match args with
  | [arg0; arg1] =>
      match Datetime.strptime arg0 with
      | inl ValueError => reply_text chat_id (DateWrong removehelptext)
      | inl e => raise e
      | inr due =>
          let trash_type := arg1 in
          if bool_decide (trash_type ∉ trashtypes) then
            reply_text chat_id (InvalidTrashType (PyStr.join "," trashtypes))
          else
            let job_id := build_job_id chat_id due trash_type in
            removed ← remove_job_if_exists job_id;
            if removed : bool then reply_text chat_id Removed
            else reply_text chat_id CouldNotRemove
      end
  | _ => reply_text chat_id (WrongInput removehelptext)
  end.

(** The entries [show_list] renders, one for each job of the queue in the
    order [jobs()] enumerates them; [chat_id] is read and not used. *)
Fixpoint list_entries (js : list Job) : M (list (datetime * value)) :=
  match js with
  | [] => mret []
  | job :: js' =>
      due ← getitem (JobQueue.context job) "due";
      duedate ← match due with
                | VDatetime d => mret d
                | _ => raise AttributeError
                end;
      trash_type ← getitem (JobQueue.context job) "trash_type";
      rest ← list_entries js';
      mret ((duedate, trash_type) :: rest)
  end.

Definition show_list (chat_id : Z) : M () :=
  js ← jobs;
  entries ← list_entries js;
  reply_text chat_id (Dates entries).

(** [main]: the updater is built around the pickle file's content and a
    job queue of its own, which starts empty; then the handlers are
    registered and the bot polls. *)
Definition main (pickle : Pickle) : State :=
  mk_state [] pickle [].

(** *** The scheduler's run loop *)

(** Modelled from the spec: the timer loop that runs the jobs is library
    code, not under src/. Section 4.2 of the spec gives its policy: a job
    fires no earlier than its target instant and at most once; one whose
    instant is already in the past fires as soon as the scheduler next runs;
    a fired job leaves the queue. An exception in the callback is logged and
    the loop goes on. *)
Definition run_pending (now : datetime) : M () :=
  js ← jobs;
  for_each (filter (λ j, Datetime.le (JobQueue.when j) now) js)
           (λ job, _ ← try_ (alarm job); schedule_removal job).

(** *** The process *)

(** What can happen to the bot: a command arrives from a chat, the scheduler
    runs at some instant, or the process is stopped and started again. *)
Inductive Event :=
| CmdAdd (chat_id : Z) (args : list string)
| CmdRemove (chat_id : Z) (args : list string)
| CmdList (chat_id : Z)
| CmdHelp (chat_id : Z)
| Tick (now : datetime)
| Restart.

(** Stopping the process drops its memory; starting it runs [main] on the
    pickle file. Messages already sent stay sent. *)
Definition restart (st : State) : State :=
  let st' := main (persistence st) in
  mk_state (job_queue st') (persistence st') (outbox st).

(** The dispatcher logs an exception a handler raises and carries on. *)
Definition handle (ev : Event) (st : State) : State :=
  match ev with
  | CmdAdd chat_id args => (add chat_id args st).2
  | CmdRemove chat_id args => (remove chat_id args st).2
  | CmdList chat_id => (show_list chat_id st).2
  | CmdHelp chat_id => (start chat_id st).2
  | Tick now => (run_pending now st).2
  | Restart => restart st
  end.

Definition run (evs : list Event) (st : State) : State :=
  foldl (λ st ev, handle ev st) st evs.

(** The states the bot can be in: [main] followed by any events. *)
Inductive reachable : State → Prop :=
| reachable_main pickle : reachable (main pickle)
| reachable_handle ev st : reachable st → reachable (handle ev st).

End Bot.

Definition empty_pickle : Pickle := mk_pickle ∅ ∅ ∅.

(** ** Auxiliary definitions for the statements and proofs *)

(** *** Numbers, dates and their text *)

(** The [w] low decimal digits of [n], most significant first. *)
Fixpoint digits (w : nat) (n : N) : string :=
  match w with
  | O => ""
  | S w' => digits w' (n / 10)%N +:+ String (pretty_N_char (n mod 10)%N) ""
  end.

(** A calendar date at midnight: what [strptime] with "%d.%m.%Y" returns. *)
Definition midnight_date (dt : datetime) : Prop :=
  Datetime.check_date_fields
    (Datetime.year dt) (Datetime.month dt) (Datetime.day dt) = true
  ∧ Datetime.hour dt = 0 ∧ Datetime.minute dt = 0 ∧ Datetime.second dt = 0.

(** The first day [datetime] can represent. *)
Definition first_day : datetime := mk_datetime 1 1 1 0 0 0.

(** The calendar day before a date, at the same time of day: the day
    before in the month, else the last day of the month before, else the
    last day of the year before. *)
Definition day_before (dt : datetime) : datetime :=
  let y := Datetime.year dt in
  let m := Datetime.month dt in
  let d := Datetime.day dt in
  let '(y', m', d') :=
    if 1 <? d then (y, m, d - 1)
    else if 1 <? m then (y, m - 1, Datetime.days_in_month y (m - 1))
    else (y - 1, 12, 31) in
  mk_datetime y' m' d'
    (Datetime.hour dt) (Datetime.minute dt) (Datetime.second dt).

(** The month and day of day [n] (counted from 0) of a year: the second
    half of [ord2ymd]. *)
Definition month_day (leapyear : bool) (n : Z) : Z * Z :=
  let month := Z.shiftr (n + 50) 5 in
  let preceding :=
    Datetime.getitem Datetime.DAYS_BEFORE_MONTH month
    + (if (2 <? month) && leapyear then 1 else 0) in
  if n <? preceding then
    let month := month - 1 in
    let preceding :=
      preceding
      - (Datetime.getitem Datetime.DAYS_IN_MONTH month
         + (if (month =? 2) && leapyear then 1 else 0)) in
    (month, n - preceding + 1)
  else (month, n - preceding + 1).





(** *** Jobs, reminders and states *)

(** The job [add] registers for a reminder. *)
Definition job_for (chat_id : Z) (due : datetime) (trash_type : string)
    (alarm_due : datetime) : Job :=
  mk_job (build_job_id chat_id due trash_type) alarm_due
         {[ "chat_id" := VInt chat_id;
            "trash_type" := VStr trash_type;
            "due" := VDatetime due ]}.

(** A job as [add] registers them: for a date at midnight and one of the
    four trash types, timed one [timedelta(days=1)] before the date. *)
Definition added_job (j : Job) : Prop :=
  ∃ chat_id due trash_type alarm_due,
    midnight_date due ∧ trash_type ∈ trashtypes ∧
    Datetime.sub_days due 1 = inr alarm_due ∧
    j = job_for chat_id due trash_type alarm_due.

(** The reminder a job stands for, read off its context: recipient, due
    date and category. *)
Definition job_key (j : Job) : option (Z * datetime * string) :=
  match JobQueue.context j !! "chat_id", JobQueue.context j !! "due",
        JobQueue.context j !! "trash_type" with
  | Some (VInt c), Some (VDatetime d), Some (VStr t) => Some (c, d, t)
  | _, _, _ => None
  end.

(** The jobs of a queue that stand for the reminder [k]. *)
Definition records (k : Z * datetime * string) (q : list Job) : list Job :=
  filter (λ j, job_key j = Some k) q.

(** The queue invariant: every job was registered by [add], and no two jobs
    share a name. *)
Definition queue_ok (q : list Job) : Prop :=
  Forall added_job q ∧ NoDup (JobQueue.name <$> q).

(** The entry [show_list] renders for a job. *)
Definition entry_of (j : Job) (e : datetime * value) : Prop :=
  ∃ c d t, job_key j = Some (c, d, t) ∧ e = (d, VStr t).



(** What [alarm] sends for a job, or the exception it raises. *)
Definition alarm_message (job : Job) : exn + Message :=
  match JobQueue.context job !! "trash_type" with
  | None => inl (KeyError "trash_type")
  | Some trash_type =>
      match JobQueue.context job !! "chat_id" with
      | None => inl (KeyError "chat_id")
      | Some chat_id =>
          match trash_type with
          | VStr t =>
              match emojis !! t with
              | Some emoji => inr (mk_message chat_id (TrashDate trash_type emoji))
              | None => inl (KeyError t)
              end
          | key => inl (KeyError (JobQueue.value_str key))
          end
      end
  end.

(** The messages a run of the scheduler sends for the jobs it fires. *)
Definition alarm_messages (js : list Job) : list Message :=
  omap (λ j, match alarm_message j with inr m => Some m | inl _ => None end) js.

(** The state with another queue, or with more messages sent. *)
Definition with_queue (q : list Job) (st : State) : State :=
  mk_state q (persistence st) (outbox st).

Definition with_sent (ms : list Message) (st : State) : State :=
  mk_state (job_queue st) (persistence st) (outbox st ++ ms).

(** The event is an [/add] that registers the reminder [k]. *)
Definition adds (k : Z * datetime * string) (ev : Event) : Prop :=
  ∃ arg0, ev = CmdAdd k.1.1 [arg0; k.2] ∧ Datetime.strptime arg0 = inr k.1.2.

(** The chat a command comes from; a run of the scheduler and a restart
    are no commands. *)
Definition command_chat (ev : Event) : option Z :=
  match ev with
  | CmdAdd c _ | CmdRemove c _ | CmdList c | CmdHelp c => Some c
  | Tick _ | Restart => None
  end.

(** The event is an [/add] or a [/remove] that names the reminder [k]. *)
Definition targets (k : Z * datetime * string) (ev : Event) : Prop :=
  ∃ arg0, (ev = CmdAdd k.1.1 [arg0; k.2] ∨ ev = CmdRemove k.1.1 [arg0; k.2])
          ∧ Datetime.strptime arg0 = inr k.1.2.

(** The job's context has what [show_list] reads from it. *)
Definition listable (j : Job) : Prop :=
  ∃ d v, JobQueue.context j !! "due" = Some (VDatetime d)
         ∧ JobQueue.context j !! "trash_type" = Some v.

(** The reply to an [/add] or [/remove] whose arguments fail validation:
    the date is checked first. *)
Definition validation_reply (help arg0 : string) : Text :=
  match Datetime.strptime arg0 with
  | inl _ => DateWrong help
  | inr _ => InvalidTrashType (PyStr.join "," trashtypes)
  end.

(** *** Concrete inputs *)

(** A freshly started bot, and a reminder for Christmas Eve added from
    chat 42. *)
Definition st0 : State := main empty_pickle.

Definition xmas_eve : datetime := mk_datetime 2025 12 24 0 0 0.

Definition bio_2025 : Job :=
  job_for 42 xmas_eve "bio" (mk_datetime 2025 12 23 0 0 0).

Definition add_bio : Event := CmdAdd 42 ["24.12.2025"; "bio"].

Definition bio_key : Z * datetime * string := (42, xmas_eve, "bio").

(** * Part II: lemmas and theorems *)

(** ** Strings *)

Lemma str_app_nil_l (b : string) : "" +:+ b = b.
Proof. reflexivity. Qed.

Lemma str_app_cons (x : ascii) (a b : string) :
  String x a +:+ b = String x (a +:+ b).
Proof. reflexivity. Qed.

Lemma str_app_assoc (a b c : string) : (a +:+ b) +:+ c = a +:+ (b +:+ c).
Proof. induction a as [|x a IH]; [done|]. by rewrite !str_app_cons, IH. Qed.

Lemma str_app_nil_r (a : string) : a +:+ "" = a.
Proof. induction a as [|x a IH]; [done|]. by rewrite str_app_cons, IH. Qed.

Lemma str_length_app (a b : string) :
  String.length (a +:+ b) = (String.length a + String.length b)%nat.
Proof.
  induction a as [|x a IH]; [done|]. rewrite str_app_cons. simpl. by rewrite IH.
Qed.

(** Two concatenations with tails of the same length agree part by part. *)
Lemma str_app_inj_tail_len (a b c d : string) :
  String.length b = String.length d →
  a +:+ b = c +:+ d → a = c ∧ b = d.
Proof.
  revert c. induction a as [|x a IH]; intros [|y c] Hlen Heq;
    rewrite ?str_app_cons, ?str_app_nil_l in Heq.
  - done.
  - apply (f_equal String.length) in Heq. simpl in Heq.
    rewrite str_length_app in Heq. lia.
  - apply (f_equal String.length) in Heq. simpl in Heq.
    rewrite str_length_app in Heq. lia.
  - injection Heq as -> Heq. destruct (IH c Hlen Heq) as [-> ->]. done.
Qed.

(** Two concatenations with heads of the same length agree part by part. *)
Lemma str_app_inj_head_len (a b c d : string) :
  String.length a = String.length c →
  a +:+ b = c +:+ d → a = c ∧ b = d.
Proof.
  revert c. induction a as [|x a IH]; intros [|y c] Hlen Heq;
    rewrite ?str_app_cons, ?str_app_nil_l in Heq; simpl in Hlen; try done.
  injection Heq as -> Heq. injection Hlen as Hlen.
  destruct (IH c Hlen Heq) as [-> ->]. done.
Qed.

Lemma str_last_app (a b : string) : b ≠ "" → PyStr.last (a +:+ b) = PyStr.last b.
Proof.
  intros Hb. induction a as [|x a IH]; [done|].
  rewrite str_app_cons. simpl. rewrite IH.
  destruct (a +:+ b) eqn:E; [|done].
  destruct a; [by rewrite str_app_nil_l in E|by rewrite str_app_cons in E].
Qed.

(** *** Zero-padded numbers *)

Lemma length_digits w n : String.length (digits w n) = w.
Proof.
  revert n. induction w as [|w IH]; intros n; simpl; [done|].
  rewrite str_length_app, IH. simpl. lia.
Qed.

Lemma digits_inj w a b :
  (a < 10 ^ N.of_nat w)%N → (b < 10 ^ N.of_nat w)%N →
  digits w a = digits w b → a = b.
Proof.
  revert a b. induction w as [|w IH]; intros a b Ha Hb Heq.
  - simpl in *. lia.
  - rewrite Nat2N.inj_succ, N.pow_succ_r' in Ha, Hb.
    simpl in Heq. apply str_app_inj_tail_len in Heq as [Hhd Htl]; [|done].
    injection Htl as Hc.
    apply pretty_N_char_inj in Hc; [|by apply N.mod_lt..].
    apply IH in Hhd; [|apply N.Div0.div_lt_upper_bound; lia..].
    rewrite (N.div_mod a 10), (N.div_mod b 10) by done. lia.
Qed.

Lemma replicate_snoc n c :
  PyStr.replicate n c +:+ String c "" = PyStr.replicate (S n) c.
Proof. induction n as [|n IH]; [done|]. simpl. by rewrite str_app_cons, IH. Qed.

Lemma length_replicate n c : String.length (PyStr.replicate n c) = n.
Proof. induction n as [|n IH]; simpl; [done|]. by rewrite IH. Qed.

Lemma digits_0 w : digits w 0 = PyStr.replicate w "0".
Proof.
  induction w as [|w IH]; [done|].
  change (digits (S w) 0) with (digits w 0 +:+ "0"). rewrite IH.
  apply replicate_snoc.
Qed.

(** The digits [pretty] writes are the low digits without the leading
    zeros. *)
Lemma digits_pretty_go w x s :
  (x < 10 ^ N.of_nat w)%N →
  ∃ k, digits w x +:+ s = PyStr.replicate k "0" +:+ pretty_N_go x s.
Proof.
  revert x s. induction w as [|w IH]; intros x s Hx.
  - exists O. simpl in Hx. assert (x = 0%N) as -> by lia. done.
  - rewrite Nat2N.inj_succ, N.pow_succ_r' in Hx.
    simpl. rewrite str_app_assoc, str_app_cons, str_app_nil_l.
    destruct (IH (x / 10)%N (String (pretty_N_char (x mod 10)) s)) as [k Hk].
    { apply N.Div0.div_lt_upper_bound. lia. }
    rewrite Hk. destruct (decide (x = 0%N)) as [->|Hpos].
    + exists (S k). change (0 / 10)%N with 0%N. rewrite !pretty_N_go_0.
      change (pretty_N_char (0 mod 10)) with "0"%char.
      rewrite <-replicate_snoc, str_app_assoc. done.
    + exists k. rewrite (pretty_N_go_step x) by lia. done.
Qed.

Lemma fmt0_digits w n :
  (0 < w)%nat → 0 ≤ n < 10 ^ Z.of_nat w →
  PyStr.fmt0 w n = digits w (Z.to_N n).
Proof.
  intros Hw Hn. unfold PyStr.fmt0, PyStr.zfill.
  destruct n as [|p|p]; [| |lia].
  - change (pretty 0) with "0". simpl Z.to_N. rewrite digits_0.
    destruct w as [|w]; [lia|]. simpl String.length.
    replace (S w - 1)%nat with w by lia. apply replicate_snoc.
  - simpl Z.to_N. destruct (digits_pretty_go w (N.pos p) "") as [k Hk].
    { apply N2Z.inj_lt. rewrite N2Z.inj_pow, nat_N_Z. simpl. lia. }
    rewrite str_app_nil_r in Hk.
    change (pretty (Z.pos p)) with (pretty_N_go (N.pos p) "").
    rewrite Hk. f_equal. f_equal.
    apply (f_equal String.length) in Hk.
    rewrite length_digits, str_length_app, length_replicate in Hk. lia.
Qed.

Lemma length_fmt0 w n :
  (0 < w)%nat → 0 ≤ n < 10 ^ Z.of_nat w → String.length (PyStr.fmt0 w n) = w.
Proof. intros. rewrite fmt0_digits by done. apply length_digits. Qed.

Lemma fmt0_inj w a b :
  (0 < w)%nat → 0 ≤ a < 10 ^ Z.of_nat w → 0 ≤ b < 10 ^ Z.of_nat w →
  PyStr.fmt0 w a = PyStr.fmt0 w b → a = b.
Proof.
  intros Hw Ha Hb. rewrite !fmt0_digits by done. intros Heq.
  apply digits_inj in Heq.
  - lia.
  - apply N2Z.inj_lt. rewrite N2Z.inj_pow, nat_N_Z, Z2N.id; lia.
  - apply N2Z.inj_lt. rewrite N2Z.inj_pow, nat_N_Z, Z2N.id; lia.
Qed.

(** ** Dates *)

Lemma days_in_month_bound y m :
  1 ≤ m ≤ 12 → 28 ≤ Datetime.days_in_month y m ≤ 31.
Proof.
  intros Hm. unfold Datetime.days_in_month.
  assert (m = 1 ∨ m = 2 ∨ m = 3 ∨ m = 4 ∨ m = 5 ∨ m = 6 ∨ m = 7 ∨ m = 8
          ∨ m = 9 ∨ m = 10 ∨ m = 11 ∨ m = 12) as Hcases by lia.
  destruct (Datetime.is_leap y);
    repeat (destruct Hcases as [->|Hcases]); subst;
    split; apply Z.leb_le; reflexivity.
Qed.

Local Ltac bound :=
  change (10 ^ Z.of_nat 4) with 10000; change (10 ^ Z.of_nat 2) with 100;
  lia.

Lemma check_date_fields_bounds y m d :
  Datetime.check_date_fields y m d = true →
  1 ≤ y ≤ 9999 ∧ 1 ≤ m ≤ 12 ∧ 1 ≤ d ≤ Datetime.days_in_month y m ∧ d ≤ 31.
Proof.
  unfold Datetime.check_date_fields, Datetime.MINYEAR, Datetime.MAXYEAR.
  rewrite !andb_true_iff, !Z.leb_le. intros [[[[[? ?] ?] ?] ?] ?].
  pose proof (days_in_month_bound y m). lia.
Qed.

Lemma length_str dt :
  midnight_date dt → String.length (Datetime.str dt) = 19%nat.
Proof.
  intros (Hf & Hh & Hm & Hs).
  apply check_date_fields_bounds in Hf as (? & ? & ? & ?).
  unfold Datetime.str. rewrite Hh, Hm, Hs.
  rewrite !str_length_app, !length_fmt0 by bound. done.
Qed.

Lemma str_inj d1 d2 :
  midnight_date d1 → midnight_date d2 →
  Datetime.str d1 = Datetime.str d2 → d1 = d2.
Proof.
  intros (Hf1 & Hh1 & Hm1 & Hs1) (Hf2 & Hh2 & Hm2 & Hs2).
  apply check_date_fields_bounds in Hf1 as (? & ? & ? & ?).
  apply check_date_fields_bounds in Hf2 as (? & ? & ? & ?).
  destruct d1 as [y1 m1 dd1 h1 mi1 s1], d2 as [y2 m2 dd2 h2 mi2 s2].
  unfold Datetime.str. simpl in *. subst. intros Heq.
  apply str_app_inj_head_len in Heq as [Hy Heq];
    [|by rewrite !length_fmt0 by bound].
  rewrite ?str_app_cons, ?str_app_nil_l in Heq. injection Heq as Heq.
  apply str_app_inj_head_len in Heq as [Hm Heq];
    [|by rewrite !length_fmt0 by bound].
  rewrite ?str_app_cons, ?str_app_nil_l in Heq. injection Heq as Heq.
  apply str_app_inj_head_len in Heq as [Hd _];
    [|by rewrite !length_fmt0 by bound].
  apply fmt0_inj in Hy; [|bound..].
  apply fmt0_inj in Hm; [|bound..].
  apply fmt0_inj in Hd; [|bound..].
  by subst.
Qed.

Lemma strptime_midnight_date s dt :
  Datetime.strptime s = inr dt → midnight_date dt.
Proof.
  unfold Datetime.strptime.
  destruct (Datetime.format_regex_match s) as [[[[d m] Y] rest]|]; [|done].
  case_bool_decide; [done|].
  destruct (PyStr.int Y) as [|y]; [done|].
  destruct (PyStr.int m) as [|mo]; [done|].
  destruct (PyStr.int d) as [|dd]; [done|].
  destruct (Datetime.check_date_fields y mo dd) eqn:Hc; [|done].
  intros [= <-]. done.
Qed.

Lemma strptime_exn s e : Datetime.strptime s = inl e → e = ValueError.
Proof.
  unfold Datetime.strptime.
  repeat (case_match; try done); congruence.
Qed.

(** *** The calendar *)

Lemma days_before_year_decomp n400 n100 n4 n1 :
  0 ≤ n100 ≤ 3 → 0 ≤ n4 ≤ 24 → 0 ≤ n1 ≤ 3 →
  Datetime.days_before_year (n400 * 400 + 1 + (n100 * 100 + n4 * 4 + n1))
  = n400 * 146097 + n100 * 36524 + n4 * 1461 + n1 * 365.
Proof.
  intros H100 H4 H1. unfold Datetime.days_before_year. cbv zeta.
  replace (n400 * 400 + 1 + (n100 * 100 + n4 * 4 + n1) - 1)
    with (n400 * 400 + n100 * 100 + n4 * 4 + n1) by lia.
  replace ((n400 * 400 + n100 * 100 + n4 * 4 + n1) / 4)
    with (n400 * 100 + n100 * 25 + n4)
    by (apply Z.div_unique with (r := n1); lia).
  replace ((n400 * 400 + n100 * 100 + n4 * 4 + n1) / 100)
    with (n400 * 4 + n100)
    by (apply Z.div_unique with (r := n4 * 4 + n1); lia).
  replace ((n400 * 400 + n100 * 100 + n4 * 4 + n1) / 400)
    with n400
    by (apply Z.div_unique with (r := n100 * 100 + n4 * 4 + n1); lia).
  lia.
Qed.

Lemma is_leap_decomp n400 n100 n4 n1 :
  0 ≤ n100 ≤ 3 → 0 ≤ n4 ≤ 24 → 0 ≤ n1 ≤ 3 →
  Datetime.is_leap (n400 * 400 + 1 + (n100 * 100 + n4 * 4 + n1))
  = (n1 =? 3) && (negb (n4 =? 24) || (n100 =? 3)).
Proof.
  intros H100 H4 H1. unfold Datetime.is_leap.
  set (y := n400 * 400 + 1 + (n100 * 100 + n4 * 4 + n1)).
  assert (y mod 4 = (n1 + 1) mod 4) as ->.
  { unfold y. replace (n400 * 400 + 1 + (n100 * 100 + n4 * 4 + n1))
      with (n1 + 1 + (n400 * 100 + n100 * 25 + n4) * 4) by lia.
    apply Z.mod_add. lia. }
  assert (y mod 100 = (n4 * 4 + n1 + 1) mod 100) as ->.
  { unfold y. replace (n400 * 400 + 1 + (n100 * 100 + n4 * 4 + n1))
      with (n4 * 4 + n1 + 1 + (n400 * 4 + n100) * 100) by lia.
    apply Z.mod_add. lia. }
  assert (y mod 400 = (n100 * 100 + n4 * 4 + n1 + 1) mod 400) as ->.
  { unfold y. replace (n400 * 400 + 1 + (n100 * 100 + n4 * 4 + n1))
      with (n100 * 100 + n4 * 4 + n1 + 1 + n400 * 400) by lia.
    apply Z.mod_add. lia. }
  destruct (Z.eqb_spec n1 3) as [->|Hn1].
  - change ((3 + 1) mod 4) with 0. simpl.
    destruct (Z.eqb_spec n4 24) as [->|Hn4].
    + change ((24 * 4 + 3 + 1) mod 100) with 0. simpl.
      destruct (Z.eqb_spec n100 3) as [->|Hn100]; [done|].
      apply Z.eqb_neq. rewrite Z.mod_small by lia. lia.
    + simpl. replace ((n4 * 4 + 3 + 1) mod 100 =? 0) with false; [done|].
      symmetry. apply Z.eqb_neq. rewrite Z.mod_small by lia. lia.
  - replace ((n1 + 1) mod 4 =? 0) with false; [done|].
    symmetry. apply Z.eqb_neq. rewrite Z.mod_small by lia. lia.
Qed.

(** The month and day of the [n]-th day of a year, by enumeration of the
    days of a common and of a leap year. *)
Lemma month_day_spec (leap : bool) (n : Z) :
  0 ≤ n < 365 →
  1 ≤ (month_day leap n).1 ≤ 12
  ∧ Datetime.getitem Datetime.DAYS_BEFORE_MONTH (month_day leap n).1
    + (if (2 <? (month_day leap n).1) && leap then 1 else 0)
    + (month_day leap n).2 = n + 1
  ∧ 1 ≤ (month_day leap n).2
      ≤ (if ((month_day leap n).1 =? 2) && leap then 29
         else Datetime.getitem Datetime.DAYS_IN_MONTH (month_day leap n).1).
Proof.
  intros Hn.
  assert (bool_decide (Forall (λ n,
            1 ≤ (month_day leap n).1 ≤ 12
            ∧ Datetime.getitem Datetime.DAYS_BEFORE_MONTH (month_day leap n).1
              + (if (2 <? (month_day leap n).1) && leap then 1 else 0)
              + (month_day leap n).2 = n + 1
            ∧ 1 ≤ (month_day leap n).2
                ≤ (if ((month_day leap n).1 =? 2) && leap then 29
                   else Datetime.getitem Datetime.DAYS_IN_MONTH
                          (month_day leap n).1))
            (seqZ 0 365)) = true) as Hall
    by (destruct leap; vm_compute; reflexivity).
  apply bool_decide_eq_true_1 in Hall.
  rewrite Forall_forall in Hall. apply Hall, elem_of_seqZ. lia.
Qed.

(** [ord2ymd] returns a calendar date, and [ymd2ord] takes it back to the
    ordinal. *)
Lemma ord2ymd_spec n :
  1 ≤ n ≤ Datetime.MAXORDINAL →
  ∃ y m d,
    Datetime.ord2ymd n = (y, m, d)
    ∧ Datetime.ymd2ord y m d = n
    ∧ Datetime.check_date_fields y m d = true.
Proof.
  unfold Datetime.MAXORDINAL. intros Hn.
  unfold Datetime.ord2ymd, Datetime.DI400Y, Datetime.DI100Y, Datetime.DI4Y.
  cbv zeta.
  pose proof (Z.div_mod (n - 1) 146097 ltac:(lia)) as E400.
  pose proof (Z.mod_pos_bound (n - 1) 146097 ltac:(lia)) as B400.
  set (n400 := (n - 1) / 146097) in *.
  set (r400 := (n - 1) mod 146097) in *.
  pose proof (Z.div_mod r400 36524 ltac:(lia)) as E100.
  pose proof (Z.mod_pos_bound r400 36524 ltac:(lia)) as B100.
  set (n100 := r400 / 36524) in *.
  set (r100 := r400 mod 36524) in *.
  pose proof (Z.div_mod r100 1461 ltac:(lia)) as E4.
  pose proof (Z.mod_pos_bound r100 1461 ltac:(lia)) as B4.
  set (n4 := r100 / 1461) in *.
  set (r4 := r100 mod 1461) in *.
  pose proof (Z.div_mod r4 365 ltac:(lia)) as E1.
  pose proof (Z.mod_pos_bound r4 365 ltac:(lia)) as B1.
  set (n1 := r4 / 365) in *.
  set (r1 := r4 mod 365) in *.
  clearbody n400 r400 n100 r100 n4 r4 n1 r1.
  assert (0 ≤ n400 ≤ 24) as Hn400 by lia.
  assert (0 ≤ n100 ≤ 4) as Hn100 by lia.
  assert (0 ≤ n4 ≤ 24) as Hn4 by lia.
  assert (0 ≤ n1 ≤ 4) as Hn1 by lia.
  destruct ((n1 =? 4) || (n100 =? 4)) eqn:Hlast.
  - (* the last day of a leap year *)
    eexists _, _, _. split; [reflexivity|].
    apply orb_true_iff in Hlast. rewrite !Z.eqb_eq in Hlast.
    assert (∃ m100 m4,
              0 ≤ m100 ≤ 3 ∧ 0 ≤ m4 ≤ 24 ∧ (m4 = 24 → m100 = 3)
              ∧ n400 * 400 + 1 + (n100 * 100 + n4 * 4 + n1) - 1
                = n400 * 400 + 1 + (m100 * 100 + m4 * 4 + 3)
              ∧ n = n400 * 146097 + m100 * 36524 + m4 * 1461 + 3 * 365 + 366)
      as (m100 & m4 & Hm100 & Hm4 & Hm & -> & Hord).
    { destruct (decide (n100 = 4)) as [->|Hne].
      - exists 3, 24. lia.
      - exists n100, n4. lia. }
    unfold Datetime.ymd2ord, Datetime.days_before_month,
      Datetime.check_date_fields, Datetime.days_in_month.
    rewrite days_before_year_decomp, is_leap_decomp by lia.
    assert ((negb (m4 =? 24) || (m100 =? 3)) = true) as Hleap.
    { destruct (Z.eqb_spec m4 24) as [H24|H24]; simpl; [|done].
      apply Z.eqb_eq. auto. }
    rewrite Hleap. simpl.
    change (Datetime.getitem Datetime.DAYS_BEFORE_MONTH 12) with 334.
    change (Datetime.getitem Datetime.DAYS_IN_MONTH 12) with 31.
    split; [lia|].
    unfold Datetime.MINYEAR, Datetime.MAXYEAR.
    rewrite !andb_true_iff, !Z.leb_le. lia.
  - apply orb_false_iff in Hlast. rewrite !Z.eqb_neq in Hlast.
    assert (0 ≤ n100 ≤ 3) as Hn100' by lia.
    assert (0 ≤ n1 ≤ 3) as Hn1' by lia.
    pose proof (days_before_year_decomp n400 n100 n4 n1 Hn100' Hn4 Hn1')
      as Hdby.
    pose proof (is_leap_decomp n400 n100 n4 n1 Hn100' Hn4 Hn1') as Hleap.
    set (year := n400 * 400 + 1 + (n100 * 100 + n4 * 4 + n1)) in *.
    assert (1 ≤ year ≤ 9999) as Hyear by (unfold year; lia).
    set (leap := (n1 =? 3) && (negb (n4 =? 24) || (n100 =? 3))) in *.
    clearbody leap year.
    pose proof (month_day_spec leap r1 B1) as Hmd.
    lazymatch goal with
    | |- ∃ y m d, ?e = _ ∧ _ =>
        assert (e = (year, (month_day leap r1).1, (month_day leap r1).2))
          as ->
    end.
    { unfold month_day. cbv zeta.
      match goal with |- (if ?c then _ else _) = _ => by destruct c end. }
    destruct (month_day leap r1) as [m d]. simpl. simpl in Hmd.
    destruct Hmd as (Hm & Hbefore & Hd).
    exists year, m, d. split; [done|].
    unfold Datetime.ymd2ord, Datetime.days_before_month,
      Datetime.check_date_fields, Datetime.days_in_month,
      Datetime.MINYEAR, Datetime.MAXYEAR.
    rewrite Hleap. split; [lia|].
    rewrite !andb_true_iff, !Z.leb_le. lia.
Qed.

Local Ltac tables :=
  repeat match goal with
  | |- context [Datetime.getitem ?l ?i] =>
      let v := eval vm_compute in (Datetime.getitem l i) in
      change (Datetime.getitem l i) with v
  | H : context [Datetime.getitem ?l ?i] |- _ =>
      let v := eval vm_compute in (Datetime.getitem l i) in
      change (Datetime.getitem l i) with v in H
  end.

(** The day of the year is between 1 and the length of the year. *)
Lemma day_of_year_bound y m d :
  1 ≤ m ≤ 12 → 1 ≤ d ≤ Datetime.days_in_month y m →
  1 ≤ Datetime.days_before_month y m + d
    ≤ (if Datetime.is_leap y then 366 else 365)
  ∧ (Datetime.days_before_month y m + d = 1 → m = 1 ∧ d = 1).
Proof.
  intros Hm. unfold Datetime.days_before_month, Datetime.days_in_month.
  assert (m = 1 ∨ m = 2 ∨ m = 3 ∨ m = 4 ∨ m = 5 ∨ m = 6 ∨ m = 7 ∨ m = 8
          ∨ m = 9 ∨ m = 10 ∨ m = 11 ∨ m = 12) as Hcases by lia.
  destruct (Datetime.is_leap y);
    repeat (destruct Hcases as [->|Hcases]); subst;
    intros Hd; tables; simpl in *; lia.
Qed.

Lemma days_before_year_bound y :
  1 ≤ y ≤ 9998 →
  0 ≤ Datetime.days_before_year y ≤ 3651330
  ∧ (Datetime.days_before_year y = 0 → y = 1).
Proof.
  intros Hy. unfold Datetime.days_before_year. cbv zeta.
  pose proof (Z.div_mod (y - 1) 4 ltac:(lia)).
  pose proof (Z.mod_pos_bound (y - 1) 4 ltac:(lia)).
  pose proof (Z.div_mod (y - 1) 100 ltac:(lia)).
  pose proof (Z.mod_pos_bound (y - 1) 100 ltac:(lia)).
  pose proof (Z.div_mod (y - 1) 400 ltac:(lia)).
  pose proof (Z.mod_pos_bound (y - 1) 400 ltac:(lia)).
  lia.
Qed.

(** Ordinals of calendar dates run from 1, on the first day only, to
    [MAXORDINAL]. *)
Lemma toordinal_bound dt :
  midnight_date dt →
  1 ≤ Datetime.toordinal dt ≤ Datetime.MAXORDINAL
  ∧ (Datetime.toordinal dt = 1 → dt = first_day).
Proof.
  intros (Hf & Hh & Hm & Hs).
  apply check_date_fields_bounds in Hf as (Hy & Hmo & Hd & Hd').
  unfold Datetime.toordinal, Datetime.ymd2ord, Datetime.MAXORDINAL.
  pose proof (day_of_year_bound (Datetime.year dt) _ _ Hmo Hd) as [Hdoy Hdoy1].
  rewrite <-Z.add_assoc.
  destruct dt as [y mo d h mi sec]. simpl in *. unfold first_day.
  destruct (decide (y = 9999)) as [->|Hne].
  - change (Datetime.days_before_year 9999) with 3651694.
    change (Datetime.is_leap 9999) with false in Hdoy.
    split; [lia|]. intros Hone. lia.
  - pose proof (days_before_year_bound y ltac:(lia)) as [? Hy1].
    assert (Datetime.days_before_month y mo + d ≤ 366)
      by (destruct (Datetime.is_leap y); lia).
    split; [lia|]. intros Hone.
    destruct Hdoy1 as [-> ->]; [lia|].
    rewrite Hy1 by lia. f_equal; lia.
Qed.

(** [dt - timedelta(days=1)] is the calendar date whose ordinal is one less,
    at the same time of day. *)
Lemma sub_days_spec dt a :
  Datetime.sub_days dt 1 = inr a →
  Datetime.toordinal a = Datetime.toordinal dt - 1
  ∧ Datetime.check_date_fields
      (Datetime.year a) (Datetime.month a) (Datetime.day a) = true
  ∧ Datetime.hour a = Datetime.hour dt
  ∧ Datetime.minute a = Datetime.minute dt
  ∧ Datetime.second a = Datetime.second dt.
Proof.
  unfold Datetime.sub_days. cbv zeta.
  destruct ((0 <? Datetime.toordinal dt - 1)
            && (Datetime.toordinal dt - 1 <=? Datetime.MAXORDINAL)) eqn:Hr;
    [|done].
  apply andb_true_iff in Hr as [Hlo Hhi].
  apply Z.ltb_lt in Hlo. apply Z.leb_le in Hhi.
  destruct (ord2ymd_spec (Datetime.toordinal dt - 1)) as (y & m & d & -> & Ho & Hc);
    [lia|].
  intros [= <-]. done.
Qed.

(** The subtraction overflows on the first day only. *)
Lemma sub_days_overflow dt e :
  midnight_date dt → Datetime.sub_days dt 1 = inl e →
  dt = first_day ∧ e = OverflowError.
Proof.
  intros Hd. pose proof (toordinal_bound dt Hd) as [Hb Hone].
  unfold Datetime.sub_days, Datetime.MAXORDINAL. cbv zeta.
  destruct ((0 <? Datetime.toordinal dt - 1)
            && (Datetime.toordinal dt - 1 <=? 3652059)) eqn:Hr.
  - by destruct (Datetime.ord2ymd _) as [[? ?] ?].
  - intros [= <-]. split; [|done]. apply Hone.
    unfold Datetime.MAXORDINAL in Hb.
    apply andb_false_iff in Hr as [Hr|Hr];
      [apply Z.ltb_ge in Hr|apply Z.leb_gt in Hr]; lia.
Qed.



(** ** The day before *)

(** A year is as long as the step of [days_before_year] over it. *)
Lemma days_before_year_succ y :
  1 ≤ y →
  Datetime.days_before_year (y + 1)
  = Datetime.days_before_year y + (if Datetime.is_leap y then 366 else 365).
Proof.
  intros Hy. unfold Datetime.days_before_year, Datetime.is_leap. cbv zeta.
  replace (y + 1 - 1) with y by lia.
  pose proof (Z.div_mod y 4 ltac:(lia)).
  pose proof (Z.mod_pos_bound y 4 ltac:(lia)).
  pose proof (Z.div_mod y 100 ltac:(lia)).
  pose proof (Z.mod_pos_bound y 100 ltac:(lia)).
  pose proof (Z.div_mod y 400 ltac:(lia)).
  pose proof (Z.mod_pos_bound y 400 ltac:(lia)).
  pose proof (Z.div_mod (y - 1) 4 ltac:(lia)).
  pose proof (Z.mod_pos_bound (y - 1) 4 ltac:(lia)).
  pose proof (Z.div_mod (y - 1) 100 ltac:(lia)).
  pose proof (Z.mod_pos_bound (y - 1) 100 ltac:(lia)).
  pose proof (Z.div_mod (y - 1) 400 ltac:(lia)).
  pose proof (Z.mod_pos_bound (y - 1) 400 ltac:(lia)).
  destruct (Z.eqb_spec (y mod 4) 0), (Z.eqb_spec (y mod 100) 0),
    (Z.eqb_spec (y mod 400) 0); simpl; lia.
Qed.

Lemma days_before_year_mono y y' :
  1 ≤ y → y ≤ y' →
  Datetime.days_before_year y ≤ Datetime.days_before_year y'.
Proof.
  intros Hy Hle. unfold Datetime.days_before_year. cbv zeta.
  pose proof (Z.div_mod (y - 1) 4 ltac:(lia)).
  pose proof (Z.mod_pos_bound (y - 1) 4 ltac:(lia)).
  pose proof (Z.div_mod (y - 1) 100 ltac:(lia)).
  pose proof (Z.mod_pos_bound (y - 1) 100 ltac:(lia)).
  pose proof (Z.div_mod (y - 1) 400 ltac:(lia)).
  pose proof (Z.mod_pos_bound (y - 1) 400 ltac:(lia)).
  pose proof (Z.div_mod (y' - 1) 4 ltac:(lia)).
  pose proof (Z.mod_pos_bound (y' - 1) 4 ltac:(lia)).
  pose proof (Z.div_mod (y' - 1) 100 ltac:(lia)).
  pose proof (Z.mod_pos_bound (y' - 1) 100 ltac:(lia)).
  pose proof (Z.div_mod (y' - 1) 400 ltac:(lia)).
  pose proof (Z.mod_pos_bound (y' - 1) 400 ltac:(lia)).
  lia.
Qed.

Lemma day_of_year_inj (leap : bool) m d m' d' :
  1 ≤ m ≤ 12 → 1 ≤ m' ≤ 12 →
  1 ≤ d ≤ (if (m =? 2) && leap then 29
           else Datetime.getitem Datetime.DAYS_IN_MONTH m) →
  1 ≤ d' ≤ (if (m' =? 2) && leap then 29
            else Datetime.getitem Datetime.DAYS_IN_MONTH m') →
  Datetime.getitem Datetime.DAYS_BEFORE_MONTH m
  + (if (2 <? m) && leap then 1 else 0) + d
  = Datetime.getitem Datetime.DAYS_BEFORE_MONTH m'
    + (if (2 <? m') && leap then 1 else 0) + d' →
  m = m' ∧ d = d'.
Proof.
  intros Hm Hm'.
  assert (m = 1 ∨ m = 2 ∨ m = 3 ∨ m = 4 ∨ m = 5 ∨ m = 6 ∨ m = 7 ∨ m = 8
          ∨ m = 9 ∨ m = 10 ∨ m = 11 ∨ m = 12) as Hcases by lia.
  assert (m' = 1 ∨ m' = 2 ∨ m' = 3 ∨ m' = 4 ∨ m' = 5 ∨ m' = 6 ∨ m' = 7
          ∨ m' = 8 ∨ m' = 9 ∨ m' = 10 ∨ m' = 11 ∨ m' = 12) as Hcases' by lia.
  clear Hm Hm'.
  destruct leap;
    repeat (destruct Hcases as [->|Hcases]); subst;
    repeat (destruct Hcases' as [->|Hcases']); subst;
    tables; simpl; lia.
Qed.

Lemma ymd2ord_inj y m d y' m' d' :
  Datetime.check_date_fields y m d = true →
  Datetime.check_date_fields y' m' d' = true →
  Datetime.ymd2ord y m d = Datetime.ymd2ord y' m' d' →
  y = y' ∧ m = m' ∧ d = d'.
Proof.
  intros (Hy & Hm & Hd & _)%check_date_fields_bounds
         (Hy' & Hm' & Hd' & _)%check_date_fields_bounds.
  unfold Datetime.ymd2ord.
  pose proof (day_of_year_bound y m d Hm Hd) as [Hdoy _].
  pose proof (day_of_year_bound y' m' d' Hm' Hd') as [Hdoy' _].
  intros Heq.
  assert (y = y') as <-.
  { destruct (Z.lt_trichotomy y y') as [Hlt|[?|Hlt]]; [|done|].
    - pose proof (days_before_year_succ y ltac:(lia)).
      pose proof (days_before_year_mono (y + 1) y' ltac:(lia) ltac:(lia)).
      lia.
    - pose proof (days_before_year_succ y' ltac:(lia)).
      pose proof (days_before_year_mono (y' + 1) y ltac:(lia) ltac:(lia)).
      lia. }
  split; [done|].
  unfold Datetime.days_before_month, Datetime.days_in_month in *.
  apply (day_of_year_inj (Datetime.is_leap y)); try done. lia.
Qed.

Lemma month_before (leap : bool) m :
  2 ≤ m ≤ 12 →
  Datetime.getitem Datetime.DAYS_BEFORE_MONTH (m - 1)
  + (if (2 <? m - 1) && leap then 1 else 0)
  + (if (m - 1 =? 2) && leap then 29
     else Datetime.getitem Datetime.DAYS_IN_MONTH (m - 1))
  = Datetime.getitem Datetime.DAYS_BEFORE_MONTH m
    + (if (2 <? m) && leap then 1 else 0)
  ∧ 1 ≤ (if (m - 1 =? 2) && leap then 29
         else Datetime.getitem Datetime.DAYS_IN_MONTH (m - 1)).
Proof.
  intros Hm.
  assert (m = 2 ∨ m = 3 ∨ m = 4 ∨ m = 5 ∨ m = 6 ∨ m = 7 ∨ m = 8
          ∨ m = 9 ∨ m = 10 ∨ m = 11 ∨ m = 12) as Hcases by lia.
  clear Hm.
  destruct leap; repeat (destruct Hcases as [->|Hcases]); subst;
    vm_compute; split; congruence.
Qed.

Lemma day_before_spec dt :
  midnight_date dt → dt ≠ first_day →
  midnight_date (day_before dt)
  ∧ Datetime.toordinal (day_before dt) = Datetime.toordinal dt - 1.
Proof.
  intros (Hf & Hh & Hm & Hs) Hne.
  pose proof (check_date_fields_bounds _ _ _ Hf) as (Hy & Hmo & Hd & _).
  destruct dt as [y m d h mi s]. simpl in *. subst h mi s.
  unfold midnight_date, day_before, Datetime.toordinal, Datetime.ymd2ord,
    Datetime.check_date_fields, Datetime.MINYEAR, Datetime.MAXYEAR.
  simpl.
  destruct (Z.ltb_spec 1 d) as [Hd1|Hd1]; simpl.
  - split; [|lia]. split; [|done].
    rewrite !andb_true_iff, !Z.leb_le. lia.
  - assert (d = 1) as -> by lia.
    destruct (Z.ltb_spec 1 m) as [Hm1|Hm1]; simpl.
    + pose proof (month_before (Datetime.is_leap y) m ltac:(lia))
        as [Hsum Hpos].
      unfold Datetime.days_before_month, Datetime.days_in_month in *.
      split; [|lia]. split; [|done].
      rewrite !andb_true_iff, !Z.leb_le. lia.
    + assert (m = 1) as -> by lia.
      assert (y ≠ 1) as Hy1 by (intros ->; by apply Hne).
      pose proof (days_before_year_succ (y - 1) ltac:(lia)) as Hsucc.
      replace (y - 1 + 1) with y in Hsucc by lia.
      unfold Datetime.days_before_month, Datetime.days_in_month.
      tables. simpl.
      split; [|destruct (Datetime.is_leap (y - 1)); lia].
      split; [|done].
      rewrite !andb_true_iff, !Z.leb_le. lia.
Qed.

Lemma sub_days_day_before dt :
  midnight_date dt → dt ≠ first_day →
  Datetime.sub_days dt 1 = inr (day_before dt).
Proof.
  intros Hd Hne.
  destruct (day_before_spec dt Hd Hne) as [(Hf & Hh & Hm & Hs) Hord].
  destruct (Datetime.sub_days dt 1) as [e|a] eqn:Ha;
    [by apply sub_days_overflow in Ha as [? _]|].
  apply sub_days_spec in Ha as (Ho & Hfa & Hha & Hma & Hsa).
  f_equal.
  destruct (ymd2ord_inj _ _ _ _ _ _ Hfa Hf) as (Hy & Hmo & Hdd).
  { unfold Datetime.toordinal in *. lia. }
  destruct a as [y m d h mi s], (day_before dt) as [y' m' d' h' mi' s'] eqn:Hb.
  simpl in *.
  assert (h' = Datetime.hour dt ∧ mi' = Datetime.minute dt
          ∧ s' = Datetime.second dt) as (-> & -> & ->).
  { unfold day_before in Hb. cbv zeta in Hb.
    destruct (if 1 <? Datetime.day dt then _ else _) as [[? ?] ?].
    by injection Hb as _ _ _ <- <- <-. }
  congruence.
Qed.

(** ** Parsing a date *)

Import Re.



























(** ** Job identifiers *)

Lemma trashtypes_eq : trashtypes = ["bio"; "rest"; "papier"; "plastik"].
Proof. reflexivity. Qed.

Lemma elem_of_trashtypes t :
  t ∈ trashtypes ↔ t = "bio" ∨ t = "rest" ∨ t = "papier" ∨ t = "plastik".
Proof. rewrite trashtypes_eq, !elem_of_cons, elem_of_nil. tauto. Qed.

Lemma build_job_id_inj c1 d1 t1 c2 d2 t2 :
  midnight_date d1 → midnight_date d2 →
  t1 ∈ trashtypes → t2 ∈ trashtypes →
  build_job_id c1 d1 t1 = build_job_id c2 d2 t2 →
  c1 = c2 ∧ d1 = d2 ∧ t1 = t2.
Proof.
  intros Hd1 Hd2 Ht1 Ht2. unfold build_job_id. rewrite <-!str_app_assoc.
  intros Heq.
  assert (t1 = t2) as Ht.
  { apply (f_equal PyStr.last) in Heq.
    apply elem_of_trashtypes in Ht1, Ht2.
    destruct Ht1 as [-> | [-> | [-> | ->]]], Ht2 as [-> | [-> | [-> | ->]]];
      rewrite !str_last_app in Heq by done; simpl in Heq; done. }
  subst t2. apply str_app_inj_tail_len in Heq as [Heq _]; [|done].
  apply str_app_inj_tail_len in Heq as [Hc Hd]; [|by rewrite !length_str].
  apply (inj pretty) in Hc. apply str_inj in Hd; done.
Qed.

(** ** The job queue *)

Lemma remove_job_app (j : Job) (pre q : list Job) :
  j ∉ pre → JobQueue.remove_job j (pre ++ j :: q) = pre ++ q.
Proof.
  induction pre as [|x pre IH]; intros Hnotin; simpl.
  - by rewrite decide_True.
  - apply not_elem_of_cons in Hnotin as [Hne Hnotin].
    rewrite decide_False by done. by rewrite IH.
Qed.

(** Removing, one after the other, the jobs a filter selects leaves the
    jobs it rejects, in their order. *)
Lemma remove_selected (P : Job → Prop) `{!∀ j, Decision (P j)} pre q :
  Forall (λ j, ¬ P j) pre →
  foldl (λ q j, JobQueue.remove_job j q) (pre ++ q) (filter P q)
  = pre ++ filter (λ j, ¬ P j) q.
Proof.
  revert pre. induction q as [|x q IH]; intros pre Hpre; [done|].
  destruct (decide (P x)) as [HP|HP].
  - rewrite filter_cons_True by done.
    rewrite (filter_cons_False (λ j, ¬ P j)) by tauto. simpl.
    rewrite remove_job_app; [by apply IH|].
    intros Hin. rewrite Forall_forall in Hpre. by apply (Hpre x).
  - rewrite filter_cons_False by done.
    rewrite (filter_cons_True (λ j, ¬ P j)) by done.
    rewrite (cons_middle x pre q), (cons_middle x pre), !(assoc app).
    apply IH. apply Forall_app. split; [done|]. by constructor.
Qed.

Lemma NoDup_fmap_filter {A B} (f : A → B) (P : A → Prop)
    `{!∀ x, Decision (P x)} (l : list A) :
  NoDup (f <$> l) → NoDup (f <$> filter P l).
Proof.
  induction l as [|x l IH]; [done|].
  rewrite fmap_cons, NoDup_cons. intros [Hx Hl].
  destruct (decide (P x)).
  - rewrite filter_cons_True, fmap_cons, NoDup_cons by done.
    split; [|by apply IH]. intros Hin. apply Hx.
    apply list_elem_of_fmap in Hin as (y & -> & Hy).
    apply list_elem_of_filter in Hy as [_ Hy]. by apply list_elem_of_fmap_2.
  - rewrite filter_cons_False by done. by apply IH.
Qed.

Lemma filter_none {A} (P : A → Prop) `{!∀ x, Decision (P x)} (l : list A) :
  Forall (λ x, ¬ P x) l → filter P l = [].
Proof.
  induction 1 as [|x l Hx _ IH]; [done|]. by rewrite filter_cons_False.
Qed.

Lemma filter_all {A} (P : A → Prop) `{!∀ x, Decision (P x)} (l : list A) :
  Forall P l → filter P l = l.
Proof.
  induction 1 as [|x l Hx _ IH]; [done|]. by rewrite filter_cons_True, IH.
Qed.

Lemma Forall_filter {A} (Q P : A → Prop) `{!∀ x, Decision (P x)} (l : list A) :
  Forall Q l → Forall Q (filter P l).
Proof.
  rewrite !Forall_forall. intros Hall x Hx.
  apply list_elem_of_filter in Hx as [_ Hx]. by apply Hall.
Qed.

(** ** The handlers, as state transformers *)

Section BotFacts.

Context {policy : JobQueue.Policy}.

Local Ltac munfold :=
  unfold mbind, M_bind, mret, M_ret, raise, lift, try_, reply_text,
    send_message, jobs, get_jobs_by_name, schedule_removal, run_once.

Lemma with_queue_id st : with_queue (job_queue st) st = st.
Proof. by destruct st. Qed.

Lemma for_each_schedule_removal (l : list Job) st :
  for_each l schedule_removal st
  = (inr (), with_queue (foldl (λ q j, JobQueue.remove_job j q) (job_queue st) l) st).
Proof.
  revert st. induction l as [|j l IH]; intros st; simpl.
  - munfold. by rewrite with_queue_id.
  - munfold. simpl. rewrite IH. done.
Qed.

Lemma remove_job_if_exists_eq name st :
  remove_job_if_exists name st
  = (inr (bool_decide (filter (λ j, JobQueue.name j = name) (job_queue st) ≠ [])),
     with_queue (filter (λ j, JobQueue.name j ≠ name) (job_queue st)) st).
Proof.
  unfold remove_job_if_exists. munfold. simpl.
  pose proof (remove_selected (λ j, JobQueue.name j = name) [] (job_queue st))
    as Hrem.
  simpl in Hrem.
  case_bool_decide as Hnil.
  - rewrite bool_decide_false by (by intros []).
    rewrite  Hnil in Hrem. simpl in Hrem. rewrite <-Hrem by done.
    by rewrite with_queue_id.
  - rewrite bool_decide_true by done.
    rewrite for_each_schedule_removal. simpl. by rewrite Hrem.
Qed.

Lemma alarm_eq job st :
  alarm job st
  = match alarm_message job with
    | inr m => (inr (), with_sent [m] st)
    | inl e => (inl e, st)
    end.
Proof.
  unfold alarm, alarm_message, getitem. munfold.
  destruct (JobQueue.context job !! "trash_type") as [tt|]; [|done].
  destruct (JobQueue.context job !! "chat_id") as [c|]; [|done].
  destruct tt as [n|t|d]; try done.
  destruct (emojis !! t); done.
Qed.

Lemma for_each_fire (l : list Job) st :
  for_each l (λ job, _ ← try_ (alarm job); schedule_removal job) st
  = (inr (),
     mk_state (foldl (λ q j, JobQueue.remove_job j q) (job_queue st) l)
              (persistence st) (outbox st ++ alarm_messages l)).
Proof.
  revert st. induction l as [|j l IH]; intros st.
  - simpl. munfold. rewrite app_nil_r. by destruct st.
  - simpl. munfold. rewrite alarm_eq.
    unfold alarm_messages. simpl.
    destruct (alarm_message j) as [e|m]; simpl; rewrite IH; simpl.
    + done.
    + by rewrite <-(assoc app).
Qed.

Lemma run_pending_eq now st :
  run_pending now st
  = (inr (),
     mk_state
       (filter (λ j, ¬ Datetime.le (JobQueue.when j) now) (job_queue st))
       (persistence st)
       (outbox st ++ alarm_messages
          (filter (λ j, Datetime.le (JobQueue.when j) now) (job_queue st)))).
Proof.
  unfold run_pending. munfold. rewrite for_each_fire. simpl.
  pose proof (remove_selected (λ j, Datetime.le (JobQueue.when j) now) []
                (job_queue st)) as Hrem.
  simpl in Hrem. by rewrite Hrem.
Qed.

(** *** [add] *)

Lemma add_wrong_input chat_id args st :
  length args ≠ 2%nat →
  add chat_id args st
  = (inr (), with_sent [mk_message (VInt chat_id) (WrongInput addhelptext)] st).
Proof. destruct args as [|a0 [|a1 [|a2 args]]]; simpl; done. Qed.

Lemma add_date_wrong chat_id arg0 arg1 e st :
  Datetime.strptime arg0 = inl e →
  add chat_id [arg0; arg1] st
  = (inr (), with_sent [mk_message (VInt chat_id) (DateWrong addhelptext)] st).
Proof.
  intros Hp. pose proof (strptime_exn _ _ Hp) as ->.
  unfold add. by rewrite Hp.
Qed.

Lemma add_invalid_trash_type chat_id arg0 arg1 due st :
  Datetime.strptime arg0 = inr due → arg1 ∉ trashtypes →
  add chat_id [arg0; arg1] st
  = (inr (), with_sent [mk_message (VInt chat_id)
                          (InvalidTrashType (PyStr.join "," trashtypes))] st).
Proof.
  intros Hp Ht. unfold add. rewrite Hp. by rewrite bool_decide_true.
Qed.

Lemma add_ok chat_id arg0 arg1 due alarm_due st :
  Datetime.strptime arg0 = inr due → arg1 ∈ trashtypes →
  Datetime.sub_days due 1 = inr alarm_due →
  add chat_id [arg0; arg1] st
  = (inr (),
     mk_state
       (JobQueue.enqueue (job_for chat_id due arg1 alarm_due)
          (filter (λ j, JobQueue.name j ≠ build_job_id chat_id due arg1)
                  (job_queue st)))
       (persistence st)
       (outbox st ++ [mk_message (VInt chat_id)
                        (Noted arg1 (Datetime.str due))])).
Proof.
  intros Hp Ht Hs. unfold add. rewrite Hp.
  rewrite bool_decide_false by (by intros []).
  unfold mbind, M_bind at 1. rewrite remove_job_if_exists_eq.
  munfold. simpl. by rewrite Hs.
Qed.

Lemma add_overflow chat_id arg0 arg1 due e st :
  Datetime.strptime arg0 = inr due → arg1 ∈ trashtypes →
  Datetime.sub_days due 1 = inl e →
  add chat_id [arg0; arg1] st
  = (inl e,
     mk_state
       (filter (λ j, JobQueue.name j ≠ build_job_id chat_id due arg1)
               (job_queue st))
       (persistence st)
       (outbox st ++ [mk_message (VInt chat_id)
                        (Noted arg1 (Datetime.str due))])).
Proof.
  intros Hp Ht Hs. unfold add. rewrite Hp.
  rewrite bool_decide_false by (by intros []).
  unfold mbind, M_bind at 1. rewrite remove_job_if_exists_eq.
  munfold. simpl. by rewrite Hs.
Qed.

(** *** [remove] *)

Lemma remove_wrong_input chat_id args st :
  length args ≠ 2%nat →
  remove chat_id args st
  = (inr (), with_sent [mk_message (VInt chat_id) (WrongInput removehelptext)] st).
Proof. destruct args as [|a0 [|a1 [|a2 args]]]; simpl; done. Qed.

Lemma remove_date_wrong chat_id arg0 arg1 e st :
  Datetime.strptime arg0 = inl e →
  remove chat_id [arg0; arg1] st
  = (inr (), with_sent [mk_message (VInt chat_id) (DateWrong removehelptext)] st).
Proof.
  intros Hp. pose proof (strptime_exn _ _ Hp) as ->.
  unfold remove. by rewrite Hp.
Qed.

Lemma remove_invalid_trash_type chat_id arg0 arg1 due st :
  Datetime.strptime arg0 = inr due → arg1 ∉ trashtypes →
  remove chat_id [arg0; arg1] st
  = (inr (), with_sent [mk_message (VInt chat_id)
                          (InvalidTrashType (PyStr.join "," trashtypes))] st).
Proof.
  intros Hp Ht. unfold remove. rewrite Hp. by rewrite bool_decide_true.
Qed.

Lemma remove_ok chat_id arg0 arg1 due st :
  Datetime.strptime arg0 = inr due → arg1 ∈ trashtypes →
  remove chat_id [arg0; arg1] st
  = (inr (),
     mk_state
       (filter (λ j, JobQueue.name j ≠ build_job_id chat_id due arg1)
               (job_queue st))
       (persistence st)
       (outbox st ++
          [mk_message (VInt chat_id)
             (if bool_decide
                   (filter (λ j, JobQueue.name j = build_job_id chat_id due arg1)
                           (job_queue st) ≠ [])
              then Removed else CouldNotRemove)])).
Proof.
  intros Hp Ht. unfold remove. rewrite Hp.
  rewrite bool_decide_false by (by intros []).
  unfold mbind, M_bind. rewrite remove_job_if_exists_eq.
  case_bool_decide; done.
Qed.

(** *** Jobs registered by [add] *)

Lemma job_key_job_for c d t a : job_key (job_for c d t a) = Some (c, d, t).
Proof. reflexivity. Qed.

Lemma context_chat_id c d t a :
  JobQueue.context (job_for c d t a) !! "chat_id" = Some (VInt c).
Proof. reflexivity. Qed.

Lemma context_trash_type c d t a :
  JobQueue.context (job_for c d t a) !! "trash_type" = Some (VStr t).
Proof. reflexivity. Qed.

Lemma context_due c d t a :
  JobQueue.context (job_for c d t a) !! "due" = Some (VDatetime d).
Proof. reflexivity. Qed.

Lemma added_job_key j :
  added_job j →
  ∃ c d t, job_key j = Some (c, d, t) ∧ midnight_date d ∧ t ∈ trashtypes
           ∧ JobQueue.name j = build_job_id c d t
           ∧ Datetime.sub_days d 1 = inr (JobQueue.when j).
Proof.
  intros (c & d & t & a & Hd & Ht & Ha & ->). exists c, d, t. done.
Qed.

(** *** [show_list] *)

Lemma list_entries_ok (js : list Job) st :
  Forall added_job js →
  ∃ entries, list_entries js st = (inr entries, st)
             ∧ Forall2 entry_of js entries.
Proof.
  induction 1 as [|j js Hj Hjs (entries & Heq & Hall)].
  - exists []. by split.
  - destruct Hj as (c & d & t & a & Hd & Ht & Ha & ->).
    exists ((d, VStr t) :: entries). split.
    + cbn [list_entries]. unfold mbind, M_bind, getitem.
      rewrite context_due, context_trash_type.
      unfold mret, M_ret. by rewrite Heq.
    + constructor; [|done]. exists c, d, t. done.
Qed.

Lemma list_entries_state (js : list Job) st : (list_entries js st).2 = st.
Proof.
  induction js as [|j js IH]; [done|].
  cbn [list_entries]. unfold mbind, M_bind, getitem.
  destruct (JobQueue.context j !! "due") as [[n|t|d]|]; try done.
  destruct (JobQueue.context j !! "trash_type") as [tt|]; [|done].
  unfold mret, M_ret. simpl.
  destruct (list_entries js st) as [[e|entries] st'] eqn:Heq;
    simpl in IH; by subst.
Qed.

Lemma show_list_queue chat_id st :
  job_queue (show_list chat_id st).2 = job_queue st
  ∧ persistence (show_list chat_id st).2 = persistence st.
Proof.
  unfold show_list, jobs, mbind, M_bind.
  pose proof (list_entries_state (job_queue st) st) as Hst.
  destruct (list_entries (job_queue st) st) as [[e|entries] st'];
    simpl in Hst; by subst.
Qed.

Lemma show_list_ok chat_id st :
  Forall added_job (job_queue st) →
  ∃ entries,
    show_list chat_id st
    = (inr (), with_sent [mk_message (VInt chat_id) (Dates entries)] st)
    ∧ Forall2 entry_of (job_queue st) entries.
Proof.
  intros Hq. destruct (list_entries_ok (job_queue st) st Hq)
    as (entries & Heq & Hall).
  exists entries. split; [|done].
  unfold show_list, jobs, mbind, M_bind. by rewrite Heq.
Qed.

(** *** The queue invariant *)

Lemma queue_ok_nil : queue_ok [].
Proof. split; constructor. Qed.

Lemma queue_ok_filter (P : Job → Prop) `{!∀ j, Decision (P j)} q :
  queue_ok q → queue_ok (filter P q).
Proof.
  intros [Hall Hnd]. split.
  - by apply Forall_filter.
  - by apply NoDup_fmap_filter.
Qed.

Lemma queue_ok_enqueue j q :
  queue_ok q → added_job j →
  queue_ok (JobQueue.enqueue j
              (filter (λ j', JobQueue.name j' ≠ JobQueue.name j) q)).
Proof.
  intros Hq Hj.
  destruct (queue_ok_filter (λ j', JobQueue.name j' ≠ JobQueue.name j) q Hq)
    as [Hall Hnd].
  split; rewrite JobQueue.enqueue_perm.
  - by constructor.
  - rewrite fmap_cons, NoDup_cons. split; [|done].
    intros Hin. apply list_elem_of_fmap in Hin as (j' & Hname & Hj').
    apply list_elem_of_filter in Hj' as [Hne _]. by apply Hne.
Qed.

Lemma job_for_added c arg0 t due a :
  Datetime.strptime arg0 = inr due → t ∈ trashtypes →
  Datetime.sub_days due 1 = inr a → added_job (job_for c due t a).
Proof.
  intros Hp Ht Ha. exists c, due, t, a.
  split_and!; try done. by eapply strptime_midnight_date.
Qed.

Lemma handle_queue_ok ev st :
  queue_ok (job_queue st) → queue_ok (job_queue (handle ev st)).
Proof.
  intros Hq. destruct ev as [c args|c args|c|c|now|]; simpl.
  - destruct (decide (length args = 2%nat)) as [Hlen|Hlen];
      [|by rewrite add_wrong_input].
    destruct args as [|arg0 [|arg1 [|? ?]]]; try done.
    destruct (Datetime.strptime arg0) as [e|due] eqn:Hp;
      [by erewrite add_date_wrong|].
    destruct (decide (arg1 ∈ trashtypes)) as [Ht|Ht];
      [|by erewrite add_invalid_trash_type].
    destruct (Datetime.sub_days due 1) as [e|a] eqn:Ha.
    + erewrite add_overflow by done. simpl. by apply queue_ok_filter.
    + erewrite add_ok by done. simpl.
      apply (queue_ok_enqueue (job_for c due arg1 a)); [done|].
      by eapply job_for_added.
  - destruct (decide (length args = 2%nat)) as [Hlen|Hlen];
      [|by rewrite remove_wrong_input].
    destruct args as [|arg0 [|arg1 [|? ?]]]; try done.
    destruct (Datetime.strptime arg0) as [e|due] eqn:Hp;
      [by erewrite remove_date_wrong|].
    destruct (decide (arg1 ∈ trashtypes)) as [Ht|Ht];
      [|by erewrite remove_invalid_trash_type].
    erewrite remove_ok by done. simpl. by apply queue_ok_filter.
  - by destruct (show_list_queue c st) as [-> _].
  - done.
  - rewrite run_pending_eq. simpl. by apply queue_ok_filter.
  - apply queue_ok_nil.
Qed.

Lemma reachable_queue_ok st : reachable st → queue_ok (job_queue st).
Proof.
  induction 1 as [pickle|ev st _ IH].
  - apply queue_ok_nil.
  - by apply handle_queue_ok.
Qed.

Lemma reachable_run evs st : reachable st → reachable (run evs st).
Proof.
  revert st. induction evs as [|ev evs IH]; intros st Hst; [done|].
  apply IH. by constructor.
Qed.

(** *** Reminders and their jobs *)

(** In a queue of jobs registered by [add], the jobs that stand for a
    reminder are the jobs that carry its name. *)
Lemma records_by_name c d t q :
  Forall added_job q → midnight_date d → t ∈ trashtypes →
  records (c, d, t) q = filter (λ j, JobQueue.name j = build_job_id c d t) q.
Proof.
  intros Hall Hd Ht. unfold records.
  induction Hall as [|j q Hj Hq IH]; [done|].
  rewrite !filter_cons, IH.
  apply added_job_key in Hj as (c' & d' & t' & Hkey & Hd' & Ht' & Hname & _).
  rewrite Hkey, Hname.
  destruct (decide (Some (c', d', t') = Some (c, d, t))) as [Heq|Hne].
  - injection Heq as -> -> ->. by rewrite decide_True.
  - rewrite decide_False; [done|]. intros Heq.
    apply build_job_id_inj in Heq as (-> & -> & ->); done.
Qed.

Lemma records_complement c d t q :
  Forall added_job q → midnight_date d → t ∈ trashtypes →
  filter (λ j, job_key j ≠ Some (c, d, t)) q
  = filter (λ j, JobQueue.name j ≠ build_job_id c d t) q.
Proof.
  intros Hall Hd Ht.
  induction Hall as [|j q Hj Hq IH]; [done|].
  rewrite !filter_cons, IH.
  apply added_job_key in Hj as (c' & d' & t' & Hkey & Hd' & Ht' & Hname & _).
  rewrite Hkey, Hname.
  destruct (decide (Some (c', d', t') = Some (c, d, t))) as [Heq|Hne].
  - injection Heq as -> -> ->. rewrite !decide_False; [done|tauto..].
  - rewrite decide_True by done. rewrite decide_True; [done|]. intros Heq.
    apply build_job_id_inj in Heq as (-> & -> & ->); done.
Qed.

Lemma filter_name_length n q :
  NoDup (JobQueue.name <$> q) →
  (length (filter (λ j, JobQueue.name j = n) q) ≤ 1)%nat.
Proof.
  induction q as [|j q IH]; [simpl; lia|].
  rewrite fmap_cons, NoDup_cons. intros [Hj Hq].
  rewrite filter_cons. case_decide as Hn; [|by apply IH].
  replace (filter (λ j0, JobQueue.name j0 = n) q) with (@nil Job);
    [simpl; lia|].
  symmetry. apply filter_none, Forall_forall. intros j' Hj' Hn'.
  apply Hj. rewrite Hn, <-Hn'. by apply list_elem_of_fmap_2.
Qed.

Lemma records_filter_other k k' q :
  k' ≠ k → records k' (filter (λ j, job_key j ≠ Some k) q) = records k' q.
Proof.
  intros Hne. unfold records. rewrite list_filter_filter.
  apply list_filter_iff. intros j. split; [tauto|].
  intros Hk. split; [done|]. rewrite Hk. congruence.
Qed.

Lemma records_filter_same k q :
  records k (filter (λ j, job_key j ≠ Some k) q) = [].
Proof.
  unfold records. rewrite list_filter_filter.
  apply filter_none, Forall_forall. tauto.
Qed.

Lemma records_length k q : queue_ok q → (length (records k q) ≤ 1)%nat.
Proof.
  intros [Hall Hnd]. destruct (records k q) as [|j js] eqn:Hrec; [simpl; lia|].
  assert (j ∈ records k q) as Hj by (rewrite Hrec; left).
  apply list_elem_of_filter in Hj as [Hkey Hj].
  rewrite Forall_forall in Hall.
  destruct (added_job_key j (Hall j Hj))
    as (c & d & t & Hkey' & Hd & Ht & Hname & _).
  assert (k = (c, d, t)) as -> by congruence.
  rewrite <-Hrec, records_by_name by (done || by apply Forall_forall).
  by apply filter_name_length.
Qed.

(** The queue after a successful [add]: only the reminder added has
    changed, and exactly its new job stands for it. *)
Lemma add_ok_records c arg0 arg1 due a st :
  queue_ok (job_queue st) →
  Datetime.strptime arg0 = inr due → arg1 ∈ trashtypes →
  Datetime.sub_days due 1 = inr a →
  let q' := job_queue (add c [arg0; arg1] st).2 in
  records (c, due, arg1) q' = [job_for c due arg1 a]
  ∧ ∀ k', k' ≠ (c, due, arg1) → records k' q' ≡ₚ records k' (job_queue st).
Proof.
  intros [Hall Hnd] Hp Ht Ha q'. subst q'.
  pose proof (strptime_midnight_date _ _ Hp) as Hd.
  erewrite add_ok by done. simpl.
  rewrite <-records_complement by done.
  split.
  - apply Permutation_singleton_r. unfold records at 1.
    rewrite JobQueue.enqueue_perm. rewrite filter_cons_True by done.
    fold (records (c, due, arg1)
            (filter (λ j, job_key j ≠ Some (c, due, arg1)) (job_queue st))).
    by rewrite records_filter_same.
  - intros k' Hne. unfold records at 1.
    rewrite JobQueue.enqueue_perm.
    rewrite filter_cons_False
      by (rewrite job_key_job_for; congruence).
    fold (records k'
            (filter (λ j, job_key j ≠ Some (c, due, arg1)) (job_queue st))).
    by rewrite records_filter_other.
Qed.

(** The queue after a [remove] with valid arguments: the jobs of the
    reminder are gone, every other job is where it was. *)
Lemma remove_ok_queue c arg0 arg1 due st :
  queue_ok (job_queue st) →
  Datetime.strptime arg0 = inr due → arg1 ∈ trashtypes →
  job_queue (remove c [arg0; arg1] st).2
  = filter (λ j, job_key j ≠ Some (c, due, arg1)) (job_queue st).
Proof.
  intros [Hall Hnd] Hp Ht.
  pose proof (strptime_midnight_date _ _ Hp) as Hd.
  erewrite remove_ok by done. simpl. by rewrite records_complement.
Qed.

Lemma add_overflow_queue c arg0 arg1 due e st :
  queue_ok (job_queue st) →
  Datetime.strptime arg0 = inr due → arg1 ∈ trashtypes →
  Datetime.sub_days due 1 = inl e →
  job_queue (add c [arg0; arg1] st).2
  = filter (λ j, job_key j ≠ Some (c, due, arg1)) (job_queue st).
Proof.
  intros [Hall Hnd] Hp Ht Ha.
  pose proof (strptime_midnight_date _ _ Hp) as Hd.
  erewrite add_overflow by done. simpl. by rewrite records_complement.
Qed.

(** ** The claims *)

(** C10. [build_job_id] is injective on the arguments the handlers give it:
    an integer chat id, a date parsed by [strptime] and one of the four
    trash types. Two different reminders never share a job name, so an
    [add] or a [remove] for one reminder leaves the jobs of every other
    reminder in the queue. *)
Theorem build_job_id_injective c arg0 t due :
  Datetime.strptime arg0 = inr due → t ∈ trashtypes →
  (∀ c' arg0' t' due',
     Datetime.strptime arg0' = inr due' → t' ∈ trashtypes →
     build_job_id c due t = build_job_id c' due' t' →
     (c, due, t) = (c', due', t'))
  ∧ (∀ st k',
       reachable st → k' ≠ (c, due, t) →
       records k' (job_queue (handle (CmdAdd c [arg0; t]) st))
         ≡ₚ records k' (job_queue st)
       ∧ records k' (job_queue (handle (CmdRemove c [arg0; t]) st))
         = records k' (job_queue st)).
Proof.
  intros Hp Ht. pose proof (strptime_midnight_date _ _ Hp) as Hd. split.
  - intros c' arg0' t' due' Hp' Ht' Heq.
    apply build_job_id_inj in Heq as (-> & -> & ->);
      eauto using strptime_midnight_date.
  - intros st k' Hst Hne. apply reachable_queue_ok in Hst as Hq.
    unfold handle. split.
    + destruct (Datetime.sub_days due 1) as [e|a] eqn:Ha.
      * erewrite add_overflow_queue by done.
        by rewrite records_filter_other.
      * by apply (add_ok_records c arg0 t due a st).
    + erewrite remove_ok_queue by done. by rewrite records_filter_other.
Qed.

(** C9. Every job in the queue of a reachable state carries a context with
    the keys chat_id, trash_type and due, the trash type being one of the
    four that [emojis] knows; [alarm] therefore raises no exception on it
    and sends its message. *)
Theorem alarm_never_misses_a_key st j :
  reachable st → j ∈ job_queue st →
  (∃ c d t,
     JobQueue.context j !! "chat_id" = Some (VInt c)
     ∧ JobQueue.context j !! "trash_type" = Some (VStr t)
     ∧ JobQueue.context j !! "due" = Some (VDatetime d)
     ∧ t ∈ trashtypes
     ∧ ∃ emoji,
         emojis !! t = Some emoji
         ∧ ∀ st', alarm j st'
                  = (inr (),
                     with_sent [mk_message (VInt c) (TrashDate (VStr t) emoji)]
                               st')).
Proof.
  intros Hst Hj. apply reachable_queue_ok in Hst as [Hall _].
  rewrite Forall_forall in Hall.
  destruct (Hall j Hj) as (c & d & t & a & Hd & Ht & Ha & ->).
  exists c, d, t. split_and!; try done.
  assert (∃ emoji, emojis !! t = Some emoji) as [emoji Hemoji].
  { apply elem_of_trashtypes in Ht as [-> | [-> | [-> | ->]]]; eauto. }
  exists emoji. split; [done|]. intros st'.
  rewrite alarm_eq. unfold alarm_message.
  by rewrite context_trash_type, context_chat_id, Hemoji.
Qed.

(** C5. An [/add] or [/remove] whose date does not parse, or whose trash
    type is not one of the four, is answered with the matching error reply
    and changes neither the job queue nor the persisted data. *)
Theorem validation_failure_no_mutation st c arg0 arg1 :
  (∃ e, Datetime.strptime arg0 = inl e) ∨ arg1 ∉ trashtypes →
  add c [arg0; arg1] st
  = (inr (), with_sent [mk_message (VInt c)
                          (validation_reply addhelptext arg0)] st)
  ∧ remove c [arg0; arg1] st
    = (inr (), with_sent [mk_message (VInt c)
                            (validation_reply removehelptext arg0)] st)
  ∧ job_queue (add c [arg0; arg1] st).2 = job_queue st
  ∧ persistence (add c [arg0; arg1] st).2 = persistence st
  ∧ job_queue (remove c [arg0; arg1] st).2 = job_queue st
  ∧ persistence (remove c [arg0; arg1] st).2 = persistence st.
Proof.
  intros Hbad. unfold validation_reply.
  destruct (Datetime.strptime arg0) as [e|due] eqn:Hp.
  - erewrite add_date_wrong, remove_date_wrong by done. done.
  - destruct Hbad as [[e He]|Ht]; [done|].
    erewrite add_invalid_trash_type, remove_invalid_trash_type by done. done.
Qed.

(** The shape of the queue after an event: either the old queue filtered,
    or the event is a successful [/add]. *)
Lemma handle_queue_cases ev st :
  (∃ (P : Job → Prop) (dec : ∀ j, Decision (P j)),
     job_queue (handle ev st) = filter P (job_queue st))
  ∨ (∃ c arg0 arg1 due a,
       ev = CmdAdd c [arg0; arg1] ∧ Datetime.strptime arg0 = inr due
       ∧ arg1 ∈ trashtypes ∧ Datetime.sub_days due 1 = inr a).
Proof.
  assert (∀ q : list Job, q = filter (λ _, True) q) as Hsame.
  { intros q. symmetry. apply filter_all, Forall_forall. done. }
  destruct ev as [c args|c args|c|c|now|]; unfold handle.
  - destruct (decide (length args = 2%nat)) as [Hlen|Hlen];
      [|left; eexists _, _; rewrite add_wrong_input by done; apply Hsame].
    destruct args as [|arg0 [|arg1 [|? ?]]]; try done.
    destruct (Datetime.strptime arg0) as [e|due] eqn:Hp;
      [left; eexists _, _; erewrite add_date_wrong by done; apply Hsame|].
    destruct (decide (arg1 ∈ trashtypes)) as [Ht|Ht];
      [|left; eexists _, _; erewrite add_invalid_trash_type by done;
        apply Hsame].
    destruct (Datetime.sub_days due 1) as [e|a] eqn:Ha.
    + left. eexists _, _. erewrite add_overflow by done. done.
    + right. by exists c, arg0, arg1, due, a.
  - left.
    destruct (decide (length args = 2%nat)) as [Hlen|Hlen];
      [|eexists _, _; rewrite remove_wrong_input by done; apply Hsame].
    destruct args as [|arg0 [|arg1 [|? ?]]]; try done.
    destruct (Datetime.strptime arg0) as [e|due] eqn:Hp;
      [eexists _, _; erewrite remove_date_wrong by done; apply Hsame|].
    destruct (decide (arg1 ∈ trashtypes)) as [Ht|Ht];
      [|eexists _, _; erewrite remove_invalid_trash_type by done;
        apply Hsame].
    eexists _, _. erewrite remove_ok by done. done.
  - left. eexists _, _. destruct (show_list_queue c st) as [-> _].
    apply Hsame.
  - left. eexists _, _. apply Hsame.
  - left. eexists _, _. rewrite run_pending_eq. done.
  - left. exists (λ _, False), _. simpl. symmetry.
    apply filter_none, Forall_forall. tauto.
Qed.

Lemma records_filter_nil k (P : Job → Prop) `{!∀ j, Decision (P j)} q :
  records k q = [] → records k (filter P q) = [].
Proof.
  unfold records. intros Hnil. rewrite list_filter_filter.
  apply filter_none, Forall_forall. intros j Hj [Hk _].
  eapply (filter_nil_not_elem_of _ _ _ Hnil); done.
Qed.

(** A reminder that no [/add] registers has no job. *)
Lemma not_added_step k ev st :
  reachable st → records k (job_queue st) = [] → ¬ adds k ev →
  records k (job_queue (handle ev st)) = [].
Proof.
  intros Hst Hnil Hev.
  destruct (handle_queue_cases ev st)
    as [(P & dec & ->)|(c & arg0 & arg1 & due & a & -> & Hp & Ht & Ha)].
  - by apply records_filter_nil.
  - apply reachable_queue_ok in Hst.
    destruct (add_ok_records c arg0 arg1 due a st Hst Hp Ht Ha) as [_ Hother].
    apply Permutation_nil_r. unfold handle. rewrite Hother, Hnil; [done|].
    intros ->. apply Hev. by exists arg0.
Qed.

Lemma never_added_no_record k evs st :
  reachable st → records k (job_queue st) = [] →
  (∀ ev, ev ∈ evs → ¬ adds k ev) →
  records k (job_queue (run evs st)) = [].
Proof.
  revert st. induction evs as [|ev evs IH]; intros st Hst Hnil Hevs; [done|].
  apply IH.
  - by constructor.
  - apply not_added_step; [done..|]. apply Hevs. left.
  - intros ev' Hev'. apply Hevs. by right.
Qed.

(** C4. [/remove] with valid arguments never raises. If no job stands for
    the reminder -- as is the case when it was never added -- the removal
    reports [False], the reply is 'Could not remove trash date.' and queue
    and persisted data stay as they are. If a job stands for it, the removal
    reports [True], the reply is 'Trash date succesfully removed.', the
    reminder has no job any more, every other job is kept, and the list no
    longer shows it. *)
Theorem remove_reports_whether_removed st c arg0 arg1 due :
  reachable st →
  Datetime.strptime arg0 = inr due → arg1 ∈ trashtypes →
  let k := (c, due, arg1) in
  let st' := (remove c [arg0; arg1] st).2 in
  (remove c [arg0; arg1] st).1 = inr ()
  ∧ (records k (job_queue st) = [] →
       remove_job_if_exists (build_job_id c due arg1) st = (inr false, st)
       ∧ st' = with_sent [mk_message (VInt c) CouldNotRemove] st)
  ∧ (records k (job_queue st) ≠ [] →
       (remove_job_if_exists (build_job_id c due arg1) st).1 = inr true
       ∧ outbox st' = outbox st ++ [mk_message (VInt c) Removed]
       ∧ persistence st' = persistence st
       ∧ job_queue st' = filter (λ j, job_key j ≠ Some k) (job_queue st)
       ∧ records k (job_queue st') = []
       ∧ ∀ c', ∃ entries,
           show_list c' st'
           = (inr (), with_sent [mk_message (VInt c') (Dates entries)] st')
           ∧ Forall2 entry_of (job_queue st') entries)
  ∧ (∀ pickle evs,
       (∀ ev, ev ∈ evs → ¬ adds k ev) →
       records k (job_queue (run evs (main pickle))) = []).
Proof.
  intros Hst Hp Ht k st'. subst k st'.
  pose proof (strptime_midnight_date _ _ Hp) as Hd.
  pose proof (reachable_queue_ok _ Hst) as Hq.
  pose proof Hq as [Hall Hnd].
  rewrite remove_job_if_exists_eq.
  erewrite remove_ok by done. simpl.
  rewrite records_by_name, <-records_complement by done.
  split_and!.
  - done.
  - intros Hnil. rewrite Hnil. rewrite bool_decide_false by (by intros []).
    assert (filter (λ j, job_key j ≠ Some (c, due, arg1)) (job_queue st)
            = job_queue st) as Hsame.
    { rewrite records_complement by done.
      apply filter_all, Forall_forall. intros j Hj Hname.
      eapply (filter_nil_not_elem_of _ _ _ Hnil); done. }
    rewrite Hsame. unfold with_queue, with_sent. by destruct st.
  - intros Hsome. rewrite bool_decide_true by done.
    split_and!; try done.
    + apply records_filter_same.
    + intros c'. apply show_list_ok. simpl. by apply Forall_filter.
  - intros pickle evs Hevs.
    apply never_added_no_record; [constructor|done..].
Qed.

(** *** One job for each reminder *)


(** At most one job stands for a reminder in any reachable state. After an
    [/add] with a valid date other than the first day and a valid trash
    type exactly one job stands for the reminder, after a second such
    [/add] still exactly one, and the list has one entry for each job of
    the queue. *)
Theorem one_job_for_each_reminder st c arg0 arg1 due :
  reachable st →
  Datetime.strptime arg0 = inr due → arg1 ∈ trashtypes → due ≠ first_day →
  let k := (c, due, arg1) in
  let st1 := handle (CmdAdd c [arg0; arg1]) st in
  let st2 := handle (CmdAdd c [arg0; arg1]) st1 in
  (∀ k', (length (records k' (job_queue st)) ≤ 1)%nat)
  ∧ ∃ a, Datetime.sub_days due 1 = inr a
         ∧ records k (job_queue st1) = [job_for c due arg1 a]
         ∧ records k (job_queue st2) = [job_for c due arg1 a]
         ∧ length (job_queue st2) = length (job_queue st1)
         ∧ ∀ c', ∃ entries,
             show_list c' st2
             = (inr (), with_sent [mk_message (VInt c') (Dates entries)] st2)
             ∧ Forall2 entry_of (job_queue st2) entries.
Proof.
  intros Hst Hp Ht Hfirst k st1 st2.
  pose proof (strptime_midnight_date _ _ Hp) as Hd.
  pose proof (reachable_queue_ok _ Hst) as Hq.
  split; [intros k'; by apply records_length|].
  destruct (Datetime.sub_days due 1) as [e|a] eqn:Ha;
    [by apply sub_days_overflow in Ha as [? _]|].
  exists a. split; [done|].
  assert (reachable st1) as Hst1 by (by constructor).
  assert (reachable st2) as Hst2 by (by constructor).
  pose proof (reachable_queue_ok _ Hst1) as Hq1.
  destruct (add_ok_records c arg0 arg1 due a st Hq Hp Ht Ha) as [Hrec1 _].
  destruct (add_ok_records c arg0 arg1 due a st1 Hq1 Hp Ht Ha) as [Hrec2 _].
  change (add c [arg0; arg1] st).2 with st1 in Hrec1.
  split_and!; [done|done| |].
  - subst st2. unfold handle at 1. erewrite add_ok by done. simpl.
    rewrite JobQueue.enqueue_perm. simpl.
    destruct Hq1 as [Hall1 _].
    rewrite <-records_complement by done.
    pose proof (filter_app_complement (λ j, job_key j = Some (c, due, arg1))
                  (job_queue st1)) as Hperm.
    apply Permutation_length in Hperm. rewrite length_app in Hperm.
    fold (records (c, due, arg1) (job_queue st1)) in Hperm.
    rewrite Hrec1 in Hperm. simpl in Hperm. lia.
  - intros c'. apply show_list_ok. by apply reachable_queue_ok.
Qed.

(** C1. The failing input: [/add 01.01.0001 bio]. The date parses, the
    reply 'Noted ...' is sent, then [due - timedelta(days=1)] raises
    [OverflowError] and no job is registered: the list has no record for
    the reminder. *)
Theorem add_first_day_registers_nothing :
  Datetime.strptime "01.01.0001" = inr first_day
  ∧ "bio" ∈ trashtypes
  ∧ add 42 ["01.01.0001"; "bio"] st0
    = (inl OverflowError,
       with_sent [mk_message (VInt 42) (Noted "bio" "0001-01-01 00:00:00")]
                 st0)
  ∧ records (42, first_day, "bio")
      (job_queue (handle (CmdAdd 42 ["01.01.0001"; "bio"]) st0)) = []
  ∧ show_list 42 (handle (CmdAdd 42 ["01.01.0001"; "bio"]) st0)
    = (inr (),
       with_sent [mk_message (VInt 42) (Dates [])]
                 (handle (CmdAdd 42 ["01.01.0001"; "bio"]) st0)).
Proof.
  assert (Datetime.strptime "01.01.0001" = inr first_day) as Hp
    by reflexivity.
  assert ("bio" ∈ trashtypes) as Ht by (apply elem_of_trashtypes; tauto).
  assert (Datetime.sub_days first_day 1 = inl OverflowError) as Ha
    by reflexivity.
  split_and!; [done|done|..]; unfold handle;
    erewrite add_overflow by done; reflexivity.
Qed.

(** *** Restart *)

(** C2, as amended. A restart leaves the process with an empty job queue:
    nothing is reloaded and no job is registered again. No reminder,
    pending, fired or removed, has a job afterwards; the list is empty and
    the scheduler has nothing to fire. The persisted dictionaries, which no
    handler writes, and the messages already sent are as before. *)
Theorem restart_empties_the_queue st :
  job_queue (handle Restart st) = []
  ∧ persistence (handle Restart st) = persistence st
  ∧ outbox (handle Restart st) = outbox st
  ∧ (∀ k, records k (job_queue (handle Restart st)) = [])
  ∧ (∀ c, show_list c (handle Restart st)
          = (inr (), with_sent [mk_message (VInt c) (Dates [])]
                               (handle Restart st)))
  ∧ (∀ now, run_pending now (handle Restart st)
            = (inr (), handle Restart st))
  ∧ ∀ ev, persistence (handle ev st) = persistence st.
Proof.
  split_and!; try done.
  intros ev. destruct ev as [c args|c args|c|c|now|]; unfold handle.
  - destruct (decide (length args = 2%nat)) as [Hlen|Hlen];
      [|by rewrite add_wrong_input].
    destruct args as [|arg0 [|arg1 [|? ?]]]; try done.
    destruct (Datetime.strptime arg0) as [e|due] eqn:Hp;
      [by erewrite add_date_wrong|].
    destruct (decide (arg1 ∈ trashtypes)) as [Ht|Ht];
      [|by erewrite add_invalid_trash_type].
    destruct (Datetime.sub_days due 1) as [e|a] eqn:Ha.
    + by erewrite add_overflow.
    + by erewrite add_ok.
  - destruct (decide (length args = 2%nat)) as [Hlen|Hlen];
      [|by rewrite remove_wrong_input].
    destruct args as [|arg0 [|arg1 [|? ?]]]; try done.
    destruct (Datetime.strptime arg0) as [e|due] eqn:Hp;
      [by erewrite remove_date_wrong|].
    destruct (decide (arg1 ∈ trashtypes)) as [Ht|Ht];
      [|by erewrite remove_invalid_trash_type].
    by erewrite remove_ok.
  - by destruct (show_list_queue c st) as [_ ->].
  - done.
  - by rewrite run_pending_eq.
  - done.
Qed.

(** *** Firing *)



(** *** The formats of the arguments *)



(** X2 [remove_job_if_exists]: the helper never raises. It answers [True]
    exactly when some pending job carries the given name; afterwards no
    pending job carries that name, the jobs of every other name are kept in
    their order, and neither the pickle nor the sent messages change. *)
Theorem remove_job_if_exists_clears_the_name name st :
  ∃ b st',
    remove_job_if_exists name st = (inr b, st')
    ∧ (b = true ↔ ∃ j, j ∈ job_queue st ∧ JobQueue.name j = name)
    ∧ job_queue st'
      = filter (λ j, JobQueue.name j ≠ name) (job_queue st)
    ∧ (∀ j, j ∈ job_queue st' → JobQueue.name j ≠ name)
    ∧ persistence st' = persistence st
    ∧ outbox st' = outbox st.
Proof.
  unfold remove_job_if_exists. munfold. simpl.
  pose proof (remove_selected (λ j, JobQueue.name j = name) [] (job_queue st))
    as Hrem.
  simpl in Hrem.
  assert (Hsome : filter (λ j, JobQueue.name j = name) (job_queue st) ≠ []
                  ↔ ∃ j, j ∈ job_queue st ∧ JobQueue.name j = name).
  { split.
    - destruct (filter _ (job_queue st)) as [|j js] eqn:Hf; [done|].
      intros _. exists j.
      assert (Hj : j ∈ filter (λ j, JobQueue.name j = name) (job_queue st))
        by (rewrite Hf; left).
      apply list_elem_of_filter in Hj. tauto.
    - intros (j & Hj & Hn) Hnil.
      assert (Hin : j ∈ filter (λ j, JobQueue.name j = name) (job_queue st))
        by (by apply list_elem_of_filter).
      rewrite Hnil in Hin. by apply elem_of_nil in Hin. }
  case_bool_decide as Hnil.
  - exists false, st. split_and!; try done.
    + split; [done|]. intros Hex. apply Hsome in Hex. done.
    + rewrite Hnil in Hrem. simpl in Hrem. by rewrite <-Hrem.
    + intros j Hj Hn. apply Hsome; [|done]. by exists j.
  - eexists true, _. rewrite for_each_schedule_removal. simpl.
    split_and!; try done.
    + split; [|done]. intros _. by apply Hsome.
    + by rewrite Hrem.
    + rewrite Hrem by done. intros j Hj.
      apply list_elem_of_filter in Hj. tauto.
Qed.

(** The scenario of the specification, under every queue policy:
    [/add 24.12.2025 bio] from chat 42 leaves one job, and the list shows
    that one date; [/remove 24.12.2025 bio] answers that the date was
    removed, and the list is empty again. *)
Theorem add_list_remove_scenario :
  let st1 := handle add_bio st0 in
  let st2 := handle (CmdRemove 42 ["24.12.2025"; "bio"]) st1 in
  job_queue st1 = [bio_2025]
  ∧ show_list 42 st1
    = (inr (),
       with_sent [mk_message (VInt 42) (Dates [(xmas_eve, VStr "bio")])] st1)
  ∧ outbox st2 = outbox st1 ++ [mk_message (VInt 42) Removed]
  ∧ job_queue st2 = []
  ∧ show_list 42 st2
    = (inr (), with_sent [mk_message (VInt 42) (Dates [])] st2).
Proof.
  assert (Hst1 : handle add_bio st0
                 = mk_state [bio_2025] empty_pickle
                     [mk_message (VInt 42)
                        (Noted "bio" "2025-12-24 00:00:00")]).
  { unfold handle, add_bio.
    rewrite (add_ok 42 "24.12.2025" "bio" xmas_eve
               (mk_datetime 2025 12 23 0 0 0) st0);
      [|reflexivity|rewrite elem_of_trashtypes; tauto|reflexivity].
    simpl. f_equal.
    pose proof (JobQueue.enqueue_perm
                  (job_for 42 xmas_eve "bio" (mk_datetime 2025 12 23 0 0 0))
                  []) as Hperm.
    by apply Permutation_singleton_r in Hperm. }
  cbv zeta. rewrite Hst1. split_and!; reflexivity.
Qed.

(** ** The handlers on every input *)

Lemma perm_short {A} (l1 l2 : list A) :
  l1 ≡ₚ l2 → (length l2 ≤ 1)%nat → l1 = l2.
Proof.
  intros Hperm Hlen. destruct l2 as [|x [|y l2]]; simpl in Hlen; [| |lia].
  - by apply Permutation_nil_r.
  - by apply Permutation_singleton_r.
Qed.

Lemma filter_filter_neg {A} (P : A → Prop) `{!∀ x, Decision (P x)}
    (l : list A) :
  filter P (filter (λ x, ¬ P x) l) = [].
Proof.
  apply filter_none, Forall_forall. intros x Hx.
  by apply list_elem_of_filter in Hx as [? _].
Qed.

Lemma filter_filter_same {A} (P : A → Prop) `{!∀ x, Decision (P x)}
    (l : list A) :
  filter P (filter P l) = filter P l.
Proof.
  apply filter_all, Forall_forall. intros x Hx.
  by apply list_elem_of_filter in Hx as [? _].
Qed.

Lemma filter_neg_all {A} (P : A → Prop) `{!∀ x, Decision (P x)} (l : list A) :
  filter P l = [] → filter (λ x, ¬ P x) l = l.
Proof.
  intros Hnil. apply filter_all, Forall_forall. intros x Hx HP.
  assert (x ∈ filter P l) as Hin by (by apply list_elem_of_filter).
  rewrite Hnil in Hin. by apply elem_of_nil in Hin.
Qed.

Lemma handle_add c args st : handle (CmdAdd c args) st = (add c args st).2.
Proof. reflexivity. Qed.

Lemma handle_remove c args st :
  handle (CmdRemove c args) st = (remove c args st).2.
Proof. reflexivity. Qed.

Lemma length_two (args : list string) :
  length args = 2%nat → ∃ arg0 arg1, args = [arg0; arg1].
Proof. destruct args as [|a0 [|a1 [|? ?]]]; try done. eauto. Qed.

(** X3 [start], [add], [remove], [show_list]: in a reachable state every
    command is answered with exactly one message, sent to the chat the
    command came from, and the persisted data are not written. [/help]
    sends the greeting with the help for [/add]; [/help], [/list] and an
    [/add] or [/remove] with any number of arguments other than two leave
    the job queue as it is. *)
Theorem every_command_is_answered_once st c :
  reachable st →
  (∀ ev, command_chat ev = Some c →
     ∃ t, outbox (handle ev st) = outbox st ++ [mk_message (VInt c) t]
          ∧ persistence (handle ev st) = persistence st)
  ∧ handle (CmdHelp c) st
    = with_sent [mk_message (VInt c) (Hi addhelptext)] st
  ∧ job_queue (handle (CmdList c) st) = job_queue st
  ∧ (∀ args, length args ≠ 2%nat →
       handle (CmdAdd c args) st
       = with_sent [mk_message (VInt c) (WrongInput addhelptext)] st
       ∧ handle (CmdRemove c args) st
         = with_sent [mk_message (VInt c) (WrongInput removehelptext)] st).
Proof.
  intros Hreach. pose proof (reachable_queue_ok st Hreach) as [Hadded _].
  split_and!.
  - intros ev Hev.
    destruct ev as [c' args|c' args|c'|c'| |]; simpl in Hev; [..|done|done];
      injection Hev as ->.
    + rewrite handle_add.
      destruct (decide (length args = 2%nat)) as [Hlen|Hlen];
        [|rewrite add_wrong_input by done; simpl; eauto].
      apply length_two in Hlen as (arg0 & arg1 & ->).
      destruct (Datetime.strptime arg0) as [e|due] eqn:Hp;
        [erewrite add_date_wrong by done; simpl; eauto|].
      destruct (decide (arg1 ∈ trashtypes)) as [Ht|Ht];
        [|erewrite add_invalid_trash_type by done; simpl; eauto].
      destruct (Datetime.sub_days due 1) as [e|a] eqn:Ha.
      * erewrite add_overflow by done. simpl. eauto.
      * erewrite add_ok by done. simpl. eauto.
    + rewrite handle_remove.
      destruct (decide (length args = 2%nat)) as [Hlen|Hlen];
        [|rewrite remove_wrong_input by done; simpl; eauto].
      apply length_two in Hlen as (arg0 & arg1 & ->).
      destruct (Datetime.strptime arg0) as [e|due] eqn:Hp;
        [erewrite remove_date_wrong by done; simpl; eauto|].
      destruct (decide (arg1 ∈ trashtypes)) as [Ht|Ht];
        [|erewrite remove_invalid_trash_type by done; simpl; eauto].
      erewrite remove_ok by done. simpl. eauto.
    + destruct (show_list_ok c st Hadded) as (entries & Heq & _).
      unfold handle. rewrite Heq. simpl. eauto.
    + unfold handle, start. munfold. simpl. eauto.
  - reflexivity.
  - unfold handle. apply show_list_queue.
  - intros args Hlen. rewrite handle_add, handle_remove.
    by rewrite add_wrong_input, remove_wrong_input.
Qed.

(** X4 [start], [remove], [add]: in any state and on any arguments [start]
    and [remove] return without an exception, and [add] lets exactly one
    exception escape: the [OverflowError] of [due - timedelta(days=1)], on
    two arguments of which the first parses as the first day of year 1 and
    the second is a valid trash type. *)
Theorem only_the_first_day_raises st c args :
  (start c st).1 = inr ()
  ∧ (remove c args st).1 = inr ()
  ∧ ∀ e, (add c args st).1 = inl e
         ↔ e = OverflowError
           ∧ ∃ arg0 arg1, args = [arg0; arg1]
                          ∧ Datetime.strptime arg0 = inr first_day
                          ∧ arg1 ∈ trashtypes.
Proof.
  split_and!.
  - reflexivity.
  - destruct (decide (length args = 2%nat)) as [Hlen|Hlen];
      [|by rewrite remove_wrong_input].
    apply length_two in Hlen as (arg0 & arg1 & ->).
    destruct (Datetime.strptime arg0) as [e|due] eqn:Hp;
      [by erewrite remove_date_wrong|].
    destruct (decide (arg1 ∈ trashtypes)) as [Ht|Ht];
      [|by erewrite remove_invalid_trash_type].
    by erewrite remove_ok.
  - intros e. split.
    + destruct (decide (length args = 2%nat)) as [Hlen|Hlen];
        [|by rewrite add_wrong_input].
      apply length_two in Hlen as (arg0 & arg1 & ->).
      destruct (Datetime.strptime arg0) as [e'|due] eqn:Hp;
        [by erewrite add_date_wrong|].
      destruct (decide (arg1 ∈ trashtypes)) as [Ht|Ht];
        [|by erewrite add_invalid_trash_type].
      pose proof (strptime_midnight_date _ _ Hp) as Hd.
      destruct (Datetime.sub_days due 1) as [e'|a] eqn:Ha;
        [|by erewrite add_ok].
      erewrite add_overflow by done. simpl. intros [= <-].
      apply sub_days_overflow in Ha as [-> ->]; [|done].
      split; [done|]. by exists arg0, arg1.
    + intros (-> & arg0 & arg1 & -> & Hp & Ht).
      by erewrite add_overflow.
Qed.

(** X5 [add], [remove], [show_list], [start]: in a reachable state a
    command that is not an [/add] or [/remove] naming the reminder itself
    leaves the jobs of that reminder exactly as they are. In particular no
    command from one chat adds, replaces or removes a reminder of another
    chat. *)
Theorem other_reminders_are_left_alone st ev c k :
  reachable st → command_chat ev = Some c →
  ¬ targets k ev ∨ c ≠ k.1.1 →
  records k (job_queue (handle ev st)) = records k (job_queue st).
Proof.
  intros Hreach Hev Hother.
  assert (Hk : ¬ targets k ev).
  { destruct Hother as [?|Hc]; [done|].
    intros (arg0 & [->| ->] & _); simpl in Hev; congruence. }
  clear Hother. pose proof (reachable_queue_ok st Hreach) as Hok.
  destruct ev as [c' args|c' args|c'|c'| |]; simpl in Hev; [..|done|done];
    injection Hev as ->.
  - rewrite handle_add.
    destruct (decide (length args = 2%nat)) as [Hlen|Hlen];
      [|by rewrite add_wrong_input].
    apply length_two in Hlen as (arg0 & arg1 & ->).
    destruct (Datetime.strptime arg0) as [e|due] eqn:Hp;
      [by erewrite add_date_wrong|].
    destruct (decide (arg1 ∈ trashtypes)) as [Ht|Ht];
      [|by erewrite add_invalid_trash_type].
    assert (Hne : k ≠ (c, due, arg1)).
    { intros ->. apply Hk. exists arg0. split; [by left|done]. }
    destruct (Datetime.sub_days due 1) as [e|a] eqn:Ha.
    + erewrite add_overflow_queue by done. by apply records_filter_other.
    + destruct (add_ok_records c arg0 arg1 due a st Hok Hp Ht Ha)
        as [_ Hperm].
      apply perm_short; [by apply Hperm|by apply records_length].
  - rewrite handle_remove.
    destruct (decide (length args = 2%nat)) as [Hlen|Hlen];
      [|by rewrite remove_wrong_input].
    apply length_two in Hlen as (arg0 & arg1 & ->).
    destruct (Datetime.strptime arg0) as [e|due] eqn:Hp;
      [by erewrite remove_date_wrong|].
    destruct (decide (arg1 ∈ trashtypes)) as [Ht|Ht];
      [|by erewrite remove_invalid_trash_type].
    assert (Hne : k ≠ (c, due, arg1)).
    { intros ->. apply Hk. exists arg0. split; [by right|done]. }
    erewrite remove_ok_queue by done. by apply records_filter_other.
  - unfold handle. by rewrite (proj1 (show_list_queue c st)).
  - reflexivity.
Qed.

(** X6 [add], [remove]: in a reachable state, an accepted [/add] followed
    by a [/remove] from the same chat for the same date, however the date
    is spelled, and the same trash type is answered 'Noted ...' and then
    'Trash date succesfully removed.'; the queue then holds the jobs it
    held before the [/add] without those of the reminder -- all of them, if
    the reminder was new. A second such [/remove] is answered 'Could not
    remove trash date.' and changes the queue no more. *)
Theorem remove_undoes_add st c arg0 arg0' arg1 due :
  reachable st →
  Datetime.strptime arg0 = inr due → Datetime.strptime arg0' = inr due →
  arg1 ∈ trashtypes → due ≠ first_day →
  let k := (c, due, arg1) in
  let st1 := handle (CmdAdd c [arg0; arg1]) st in
  let st2 := handle (CmdRemove c [arg0'; arg1]) st1 in
  let st3 := handle (CmdRemove c [arg0'; arg1]) st2 in
  outbox st3
  = outbox st ++ [mk_message (VInt c) (Noted arg1 (Datetime.str due));
                  mk_message (VInt c) Removed;
                  mk_message (VInt c) CouldNotRemove]
  ∧ records k (job_queue st2) = []
  ∧ job_queue st2 ≡ₚ filter (λ j, job_key j ≠ Some k) (job_queue st)
  ∧ (records k (job_queue st) = [] → job_queue st2 ≡ₚ job_queue st)
  ∧ job_queue st3 = job_queue st2.
Proof.
  intros Hreach Hp Hp' Ht Hfirst k st1 st2 st3.
  pose proof (reachable_queue_ok st Hreach) as [Hadded _].
  pose proof (strptime_midnight_date _ _ Hp) as Hd.
  destruct (Datetime.sub_days due 1) as [e|a] eqn:Ha;
    [by apply sub_days_overflow in Ha as [? _]|].
  set (n := build_job_id c due arg1).
  set (j := job_for c due arg1 a).
  set (q1 := JobQueue.enqueue j
               (filter (λ j', JobQueue.name j' ≠ n) (job_queue st))).
  assert (Hst1 : st1 = mk_state q1 (persistence st)
                         (outbox st ++ [mk_message (VInt c)
                                          (Noted arg1 (Datetime.str due))])).
  { subst st1. rewrite handle_add. by erewrite add_ok. }
  assert (Hin : filter (λ j', JobQueue.name j' = n) q1 ≠ []).
  { intros Hnil.
    assert (j ∈ filter (λ j', JobQueue.name j' = n) q1) as Hj.
    { apply list_elem_of_filter. split; [done|].
      subst q1. rewrite JobQueue.enqueue_perm. left. }
    rewrite Hnil in Hj. by apply elem_of_nil in Hj. }
  assert (Hst2 : st2 = mk_state (filter (λ j', JobQueue.name j' ≠ n) q1)
                         (persistence st)
                         (outbox st ++
                            [mk_message (VInt c)
                               (Noted arg1 (Datetime.str due));
                             mk_message (VInt c) Removed])).
  { subst st2. rewrite handle_remove, Hst1. erewrite remove_ok by done.
    simpl. fold n. rewrite bool_decide_true by done.
    by rewrite <-app_assoc. }
  assert (Hst3 : st3 = mk_state (filter (λ j', JobQueue.name j' ≠ n) q1)
                         (persistence st)
                         (outbox st ++
                            [mk_message (VInt c)
                               (Noted arg1 (Datetime.str due));
                             mk_message (VInt c) Removed;
                             mk_message (VInt c) CouldNotRemove])).
  { subst st3. rewrite handle_remove, Hst2. erewrite remove_ok by done.
    simpl. fold n. rewrite filter_filter_neg, filter_filter_same.
    rewrite bool_decide_false by (by intros []).
    by rewrite <-app_assoc. }
  assert (Hq2 : filter (λ j', JobQueue.name j' ≠ n) q1
                ≡ₚ filter (λ j', job_key j' ≠ Some k) (job_queue st)).
  { subst q1. rewrite JobQueue.enqueue_perm.
    rewrite filter_cons_False by (intros Hn; by apply Hn).
    rewrite filter_filter_same.
    by rewrite (records_complement c due arg1). }
  rewrite Hst3, Hst2. simpl. split_and!.
  - done.
  - apply Permutation_nil_r. unfold records. rewrite Hq2.
    fold (records k (filter (λ j', job_key j' ≠ Some k) (job_queue st))).
    by rewrite records_filter_same.
  - done.
  - intros Hnil. rewrite Hq2. by rewrite filter_neg_all.
  - done.
Qed.

(** X7 [alarm]: on any job whatever, [alarm] touches neither the queue nor
    the persisted data. It sends its one message exactly when the job's
    context has a [trash_type] that is a key of [emojis] and a [chat_id];
    otherwise it sends nothing and raises a [KeyError], for [trash_type]
    if that is missing, else for [chat_id] if that is missing. *)
Theorem alarm_sends_or_raises_key_error job st :
  job_queue (alarm job st).2 = job_queue st
  ∧ persistence (alarm job st).2 = persistence st
  ∧ (∀ chat_id t emoji,
       JobQueue.context job !! "trash_type" = Some (VStr t) →
       JobQueue.context job !! "chat_id" = Some chat_id →
       emojis !! t = Some emoji →
       alarm job st
       = (inr (), with_sent [mk_message chat_id (TrashDate (VStr t) emoji)]
                            st))
  ∧ ((alarm job st).1 = inr ()
     ↔ ∃ chat_id t emoji,
         JobQueue.context job !! "trash_type" = Some (VStr t)
         ∧ JobQueue.context job !! "chat_id" = Some chat_id
         ∧ emojis !! t = Some emoji)
  ∧ (∀ e, (alarm job st).1 = inl e →
          (alarm job st).2 = st ∧ ∃ key, e = KeyError key)
  ∧ (JobQueue.context job !! "trash_type" = None →
     (alarm job st).1 = inl (KeyError "trash_type"))
  ∧ (is_Some (JobQueue.context job !! "trash_type") →
     JobQueue.context job !! "chat_id" = None →
     (alarm job st).1 = inl (KeyError "chat_id")).
Proof.
  rewrite alarm_eq. unfold alarm_message.
  destruct (JobQueue.context job !! "trash_type") as [[n|t|d]|] eqn:Htt;
    destruct (JobQueue.context job !! "chat_id") as [chat_id|] eqn:Hc;
    try destruct (emojis !! t) as [emoji|] eqn:He;
    simpl; split_and!;
    try done;
    try (intros e [= <-]; by eauto);
    try (by intros [? ?]);
    try (split; [done|]; intros (? & ? & ? & ? & ? & ?); congruence);
    try (intros; congruence).
  split; [|done]. intros _. by exists chat_id, t, emoji.
Qed.

Lemma list_entries_cases (js : list Job) st :
  (∃ entries, list_entries js st = (inr entries, st)
              ∧ length entries = length js
              ∧ Forall listable js)
  ∨ (∃ e, list_entries js st = (inl e, st)
          ∧ (e = AttributeError ∨ e = KeyError "due"
             ∨ e = KeyError "trash_type")
          ∧ ¬ Forall listable js).
Proof.
  induction js as [|j js IH].
  - left. exists []. by repeat split.
  - cbn [list_entries]. unfold mbind, M_bind, getitem.
    destruct (JobQueue.context j !! "due") as [[n|t|d]|] eqn:Hdue;
      [right; exists AttributeError
      |right; exists AttributeError
      |
      |right; exists (KeyError "due")];
      try (split; [done|]; split; [tauto|];
           intros Hall; apply Forall_cons in Hall as [(? & ? & ? & _) _];
           congruence).
    unfold mret, M_ret. simpl.
    destruct (JobQueue.context j !! "trash_type") as [tt|] eqn:Htt;
      [|right; exists (KeyError "trash_type");
        split; [done|]; split; [tauto|];
        intros Hall; apply Forall_cons in Hall as [(? & ? & _ & ?) _];
        congruence].
    simpl.
    destruct IH as [(entries & -> & Hlen & Hall)|(e & -> & He & Hall)].
    + left. exists ((d, tt) :: entries). split; [done|].
      split; [simpl; by rewrite Hlen|].
      apply Forall_cons. split; [by exists d, tt|done].
    + right. exists e. split; [done|]. split; [done|].
      intros Hall'. apply Forall_cons in Hall' as [_ ?]. by apply Hall.
Qed.

(** X8 [show_list]: on any queue whatever, [show_list] changes neither the
    queue nor the persisted data, and it answers all or nothing. If every
    job's context has a [due] that is a datetime and a [trash_type], one
    message goes to the asking chat, with one entry for each job of the
    queue. Otherwise nothing is sent and the handler raises: a [KeyError]
    for the missing key, or an [AttributeError] for a [due] that has no
    [strftime]. *)
Theorem show_list_answers_all_or_nothing c st :
  job_queue (show_list c st).2 = job_queue st
  ∧ persistence (show_list c st).2 = persistence st
  ∧ ((Forall listable (job_queue st)
      ∧ ∃ entries,
          show_list c st
          = (inr (), with_sent [mk_message (VInt c) (Dates entries)] st)
          ∧ length entries = length (job_queue st))
     ∨ (¬ Forall listable (job_queue st)
        ∧ ∃ e, show_list c st = (inl e, st)
               ∧ (e = AttributeError ∨ e = KeyError "due"
                  ∨ e = KeyError "trash_type"))).
Proof.
  split; [apply show_list_queue|]. split; [apply show_list_queue|].
  unfold show_list, jobs, mbind, M_bind.
  destruct (list_entries_cases (job_queue st) st)
    as [(entries & -> & Hlen & Hall)|(e & -> & He & Hall)].
  - left. split; [done|]. by exists entries.
  - right. split; [done|]. by exists e.
Qed.

Lemma add_then_remove st c arg0 arg0' arg1 due a :
  Datetime.strptime arg0 = inr due → Datetime.strptime arg0' = inr due →
  arg1 ∈ trashtypes → Datetime.sub_days due 1 = inr a →
  handle (CmdRemove c [arg0'; arg1]) (handle (CmdAdd c [arg0; arg1]) st)
  = mk_state
      (filter (λ j, JobQueue.name j ≠ build_job_id c due arg1)
         (JobQueue.enqueue (job_for c due arg1 a)
            (filter (λ j, JobQueue.name j ≠ build_job_id c due arg1)
                    (job_queue st))))
      (persistence st)
      (outbox st ++ [mk_message (VInt c) (Noted arg1 (Datetime.str due));
                     mk_message (VInt c) Removed]).
Proof.
  intros Hp Hp' Ht Ha. rewrite handle_remove, handle_add.
  erewrite add_ok by done. erewrite remove_ok by done. simpl.
  rewrite bool_decide_true, <-app_assoc; [done|].
  intros Hnil.
  assert (job_for c due arg1 a
          ∈ filter (λ j, JobQueue.name j = build_job_id c due arg1)
              (JobQueue.enqueue (job_for c due arg1 a)
                 (filter (λ j, JobQueue.name j ≠ build_job_id c due arg1)
                         (job_queue st)))) as Hj.
  { apply list_elem_of_filter. split; [done|].
    rewrite JobQueue.enqueue_perm. left. }
  rewrite Hnil in Hj. by apply elem_of_nil in Hj.
Qed.

(** X9 [add], [remove], [build_job_id]: the invariant of the job queue.
    Every job pending in a reachable state is one [add] registered: its
    context holds the chat, a due date at midnight other than the first day
    and one of the four trash types, its name is [build_job_id] of these
    three, and it is timed at the day before the due date. No two pending
    jobs share a name, so [get_jobs_by_name] never finds more than one. *)
Theorem pending_jobs_are_as_added st :
  reachable st →
  (∀ j, j ∈ job_queue st →
     ∃ c due t alarm_due,
       j = job_for c due t alarm_due
       ∧ JobQueue.name j = build_job_id c due t
       ∧ midnight_date due ∧ due ≠ first_day ∧ t ∈ trashtypes
       ∧ Datetime.sub_days due 1 = inr (JobQueue.when j)
       ∧ Datetime.toordinal (JobQueue.when j) = Datetime.toordinal due - 1)
  ∧ NoDup (JobQueue.name <$> job_queue st)
  ∧ (∀ name,
       (length (filter (λ j, JobQueue.name j = name) (job_queue st)) ≤ 1)%nat).
Proof.
  intros Hreach. destruct (reachable_queue_ok st Hreach) as [Hall Hnd].
  split_and!; [|done|intros name; by apply filter_name_length].
  intros j Hj. rewrite Forall_forall in Hall.
  destruct (Hall j Hj) as (c & due & t & a & Hd & Ht & Ha & ->).
  exists c, due, t, a. split_and!; try done.
  - intros ->. discriminate Ha.
  - by apply sub_days_spec in Ha as [? _].
Qed.

(** X11 [add]: the job an accepted [/add] registers runs on the calendar
    day before the due date, at midnight: the day before in the same
    month, the last day of the month before on a first of the month, and
    31 December of the year before on 1 January. No job of that name in
    the queue runs at another time. *)
Theorem alarm_is_set_for_the_day_before st c arg0 arg1 due :
  Datetime.strptime arg0 = inr due → arg1 ∈ trashtypes → due ≠ first_day →
  Datetime.sub_days due 1 = inr (day_before due)
  ∧ midnight_date (day_before due)
  ∧ job_for c due arg1 (day_before due)
    ∈ job_queue (handle (CmdAdd c [arg0; arg1]) st)
  ∧ ∀ j, j ∈ job_queue (handle (CmdAdd c [arg0; arg1]) st) →
         JobQueue.name j = build_job_id c due arg1 →
         JobQueue.when j = day_before due.
Proof.
  intros Hp Ht Hfirst. pose proof (strptime_midnight_date _ _ Hp) as Hd.
  pose proof (sub_days_day_before due Hd Hfirst) as Ha.
  split; [done|]. split; [by apply day_before_spec|].
  rewrite handle_add. erewrite add_ok by done. simpl. split.
  - rewrite JobQueue.enqueue_perm. left.
  - intros j Hj Hname. rewrite JobQueue.enqueue_perm in Hj.
    apply elem_of_cons in Hj as [->|Hj]; [done|].
    by apply list_elem_of_filter in Hj as [? _].
Qed.

End BotFacts.

(** ** The order of the list *)







(** ** The claims at concrete inputs *)

(** ** The queue after an [/add] is taken back *)

Lemma filter_fifo (P : Job → Prop) `{!∀ j, Decision (P j)} j q :
  ¬ P j → filter P (JobQueue.enqueue (Policy := JobQueue.fifo) j q)
          = filter P q.
Proof.
  intros Hj. simpl. rewrite filter_app, filter_cons_False by done.
  by rewrite filter_nil, app_nil_r.
Qed.

Lemma filter_by_run_time (P : Job → Prop) `{!∀ j, Decision (P j)} j q :
  ¬ P j → filter P (JobQueue.enqueue (Policy := JobQueue.by_run_time) j q)
          = filter P q.
Proof.
  intros Hj. simpl. induction q as [|j' q IH]; simpl.
  - by rewrite filter_cons_False.
  - case_decide; [|by rewrite filter_cons_False].
    destruct (decide (P j')).
    + by rewrite !filter_cons_True, IH.
    + by rewrite !filter_cons_False.
Qed.

(** X10 [add], [remove]: under a job queue that enumerates in the order of
    insertion or by run time, an accepted [/add] of a reminder that has no
    job yet, followed by the [/remove] of that reminder, leaves the bot in
    the state it was in, but for the two replies sent: the queue holds the
    same jobs in the same order. *)
Theorem remove_restores_the_state (policy : JobQueue.Policy)
    st c arg0 arg0' arg1 due :
  policy = JobQueue.fifo ∨ policy = JobQueue.by_run_time →
  reachable st →
  Datetime.strptime arg0 = inr due → Datetime.strptime arg0' = inr due →
  arg1 ∈ trashtypes → due ≠ first_day →
  records (c, due, arg1) (job_queue st) = [] →
  handle (CmdRemove c [arg0'; arg1]) (handle (CmdAdd c [arg0; arg1]) st)
  = with_sent [mk_message (VInt c) (Noted arg1 (Datetime.str due));
               mk_message (VInt c) Removed] st.
Proof.
  intros Hpolicy Hreach Hp Hp' Ht Hfirst Hnil.
  pose proof (reachable_queue_ok st Hreach) as [Hadded _].
  pose proof (strptime_midnight_date _ _ Hp) as Hd.
  destruct (Datetime.sub_days due 1) as [e|a] eqn:Ha;
    [by apply sub_days_overflow in Ha as [? _]|].
  rewrite (add_then_remove st c arg0 arg0' arg1 due a) by done.
  unfold with_sent. f_equal.
  assert (Hq : filter (λ j, JobQueue.name j ≠ build_job_id c due arg1)
                 (job_queue st) = job_queue st).
  { rewrite <-(records_complement c due arg1) by done.
    by apply filter_neg_all. }
  destruct Hpolicy as [-> | ->].
  - rewrite filter_fifo by (intros Hn; by apply Hn).
    by rewrite filter_filter_same.
  - rewrite filter_by_run_time by (intros Hn; by apply Hn).
    by rewrite filter_filter_same.
Qed.


(** The concrete runs enumerate the queue in the order of insertion. *)
#[local] Existing Instance JobQueue.fifo.

Lemma strptime_bio_2025 :
  Datetime.strptime "24.12.2025" = inr xmas_eve.
Proof. reflexivity. Qed.

Lemma bio_in_trashtypes : "bio" ∈ trashtypes.
Proof. apply elem_of_trashtypes. tauto. Qed.

Lemma add_bio_2025_queue : job_queue (handle add_bio st0) = [bio_2025].
Proof. reflexivity. Qed.

Lemma add_bio_2025_records :
  records bio_key (job_queue (handle add_bio st0)) = [bio_2025].
Proof. reflexivity. Qed.

Lemma reachable_add_bio : reachable (handle add_bio st0).
Proof. apply reachable_handle, reachable_main. Qed.

(** ** The parser, the calendar and the job names on concrete inputs *)

Example strptime_leap_day :
  Datetime.strptime "29.02.2024" = inr (mk_datetime 2024 2 29 0 0 0).
Proof. reflexivity. Qed.

Example strptime_no_leap_day : Datetime.strptime "29.02.2023" = inl ValueError.
Proof. reflexivity. Qed.

Example strptime_day_out_of_month :
  Datetime.strptime "31.04.2025" = inl ValueError.
Proof. reflexivity. Qed.

Example strptime_unconverted_data :
  Datetime.strptime "24.12.20255" = inl ValueError.
Proof. reflexivity. Qed.

Example strptime_iso_date : Datetime.strptime "2025-12-24" = inl ValueError.
Proof. reflexivity. Qed.

Example strptime_year_zero : Datetime.strptime "01.01.0000" = inl ValueError.
Proof. reflexivity. Qed.

Example sub_days_into_february :
  Datetime.sub_days (mk_datetime 2024 3 1 0 0 0) 1
  = inr (mk_datetime 2024 2 29 0 0 0).
Proof. reflexivity. Qed.

Example sub_days_into_old_year :
  Datetime.sub_days (mk_datetime 2026 1 1 0 0 0) 1
  = inr (mk_datetime 2025 12 31 0 0 0).
Proof. reflexivity. Qed.

Example sub_days_first_day :
  Datetime.sub_days first_day 1 = inl OverflowError.
Proof. reflexivity. Qed.

Example build_job_id_bio :
  build_job_id 42 xmas_eve "bio" = "422025-12-24 00:00:00bio".
Proof. reflexivity. Qed.

Lemma build_job_id_injective_witness :
  Datetime.strptime "24.12.2025" = inr xmas_eve
  ∧ "bio" ∈ trashtypes
  ∧ build_job_id 42 xmas_eve "bio"
    = "422025-12-24 00:00:00bio"
  ∧ ∀ c' arg0' t' due',
      Datetime.strptime arg0' = inr due' → t' ∈ trashtypes →
      build_job_id 42 xmas_eve "bio"
      = build_job_id c' due' t' →
      (42, xmas_eve, "bio") = (c', due', t').
Proof.
  assert (Datetime.strptime "24.12.2025" = inr xmas_eve)
    as Hp by reflexivity.
  assert ("bio" ∈ trashtypes) as Ht by (apply elem_of_trashtypes; tauto).
  split_and!; [done|done|reflexivity|].
  exact (proj1 (build_job_id_injective 42 "24.12.2025" "bio" _ Hp Ht)).
Defined.


Lemma alarm_never_misses_a_key_witness :
  ∃ c d t,
    JobQueue.context bio_2025 !! "chat_id" = Some (VInt c)
    ∧ JobQueue.context bio_2025 !! "trash_type" = Some (VStr t)
    ∧ JobQueue.context bio_2025 !! "due" = Some (VDatetime d)
    ∧ t ∈ trashtypes
    ∧ ∃ emoji,
        emojis !! t = Some emoji
        ∧ ∀ st', alarm bio_2025 st'
                 = (inr (),
                    with_sent [mk_message (VInt c) (TrashDate (VStr t) emoji)]
                              st').
Proof.
  apply (alarm_never_misses_a_key (handle add_bio st0)).
  - apply reachable_add_bio.
  - rewrite add_bio_2025_queue. left.
Defined.

Lemma validation_failure_no_mutation_witness :
  add 42 ["2025-12-24"; "bio"] st0
  = (inr (), with_sent [mk_message (VInt 42) (DateWrong addhelptext)] st0)
  ∧ job_queue (remove 42 ["2025-12-24"; "bio"] st0).2 = job_queue st0.
Proof.
  destruct (validation_failure_no_mutation st0 42 "2025-12-24" "bio")
    as (Hadd & _ & _ & _ & Hq & _).
  - left. exists ValueError. reflexivity.
  - split; [exact Hadd|exact Hq].
Defined.

Lemma remove_reports_whether_removed_witness :
  (remove 42 ["24.12.2025"; "bio"] (handle add_bio st0)).1 = inr ()
  ∧ records bio_key
      (job_queue (remove 42 ["24.12.2025"; "bio"] (handle add_bio st0)).2)
    = [].
Proof.
  destruct (remove_reports_whether_removed
              (handle add_bio st0) 42 "24.12.2025" "bio" xmas_eve)
    as (Hres & _ & Hsome & _).
  - apply reachable_add_bio.
  - reflexivity.
  - apply bio_in_trashtypes.
  - split; [exact Hres|].
    apply Hsome.
    change (records bio_key (job_queue (handle add_bio st0)) ≠ []).
    rewrite add_bio_2025_records. discriminate.
Defined.


(** C2, the claim as stated fails: the reminder added for Christmas Eve is
    pending before the restart and gone after it. *)
Lemma restart_drops_pending_reminder :
  records bio_key (job_queue (handle add_bio st0)) = [bio_2025]
  ∧ records bio_key (job_queue (handle Restart (handle add_bio st0))) = []
  ∧ job_queue (handle Restart (handle add_bio st0))
    ≠ job_queue (handle add_bio st0).
Proof. split_and!; [reflexivity|reflexivity|discriminate]. Qed.





Lemma one_job_for_each_reminder_witness :
  ∃ a, Datetime.sub_days xmas_eve 1 = inr a
       ∧ records bio_key (job_queue (handle add_bio st0))
         = [job_for 42 xmas_eve "bio" a]
       ∧ records bio_key (job_queue (handle add_bio (handle add_bio st0)))
         = [job_for 42 xmas_eve "bio" a].
Proof.
  destruct (one_job_for_each_reminder st0 42 "24.12.2025" "bio" xmas_eve)
    as (_ & a & Ha & Hrec1 & Hrec2 & _).
  - apply reachable_main.
  - reflexivity.
  - apply bio_in_trashtypes.
  - discriminate.
  - exists a. split; [exact Ha|]. split; [exact Hrec1|exact Hrec2].
Defined.

Lemma every_command_is_answered_once_witness :
  ∃ t, outbox (handle (CmdList 42) (handle add_bio st0))
       = outbox (handle add_bio st0) ++ [mk_message (VInt 42) t].
Proof.
  destruct (every_command_is_answered_once (handle add_bio st0) 42
              reachable_add_bio) as [Hone _].
  destruct (Hone (CmdList 42) eq_refl) as (t & Ht & _).
  exists t. exact Ht.
Defined.

Lemma other_reminders_are_left_alone_witness :
  records bio_key
    (job_queue (handle (CmdRemove 43 ["24.12.2025"; "bio"])
                       (handle add_bio st0)))
  = records bio_key (job_queue (handle add_bio st0)).
Proof.
  apply (other_reminders_are_left_alone (handle add_bio st0)
           (CmdRemove 43 ["24.12.2025"; "bio"]) 43 bio_key).
  - apply reachable_add_bio.
  - reflexivity.
  - right. discriminate.
Defined.

Lemma remove_undoes_add_witness :
  outbox (handle (CmdRemove 42 ["01.01.2026"; "plastik"])
            (handle (CmdRemove 42 ["01.01.2026"; "plastik"])
               (handle (CmdAdd 42 ["1.1.2026"; "plastik"]) st0)))
  = outbox st0
    ++ [mk_message (VInt 42) (Noted "plastik" "2026-01-01 00:00:00");
        mk_message (VInt 42) Removed;
        mk_message (VInt 42) CouldNotRemove].
Proof.
  destruct (remove_undoes_add st0 42 "1.1.2026" "01.01.2026" "plastik"
              (mk_datetime 2026 1 1 0 0 0)) as [Hout _].
  - apply reachable_main.
  - reflexivity.
  - reflexivity.
  - rewrite elem_of_trashtypes. tauto.
  - discriminate.
  - exact Hout.
Defined.

Lemma pending_jobs_are_as_added_witness :
  ∃ c due t alarm_due, bio_2025 = job_for c due t alarm_due
                       ∧ due ≠ first_day.
Proof.
  destruct (pending_jobs_are_as_added (handle add_bio st0) reachable_add_bio)
    as [Hjobs _].
  destruct (Hjobs bio_2025) as (c & due & t & a & Hj & _ & _ & Hfirst & _).
  - rewrite add_bio_2025_queue. left.
  - exists c, due, t, a. split; [exact Hj|exact Hfirst].
Defined.

Lemma remove_restores_the_state_witness :
  handle (CmdRemove 42 ["24.12.2025"; "bio"])
         (handle (CmdAdd 42 ["24.12.2025"; "bio"]) st0)
  = with_sent [mk_message (VInt 42) (Noted "bio" "2025-12-24 00:00:00");
               mk_message (VInt 42) Removed] st0.
Proof.
  apply (remove_restores_the_state JobQueue.fifo st0 42
           "24.12.2025" "24.12.2025" "bio" xmas_eve).
  - left. reflexivity.
  - apply reachable_main.
  - reflexivity.
  - reflexivity.
  - apply bio_in_trashtypes.
  - discriminate.
  - reflexivity.
Defined.

Lemma alarm_is_set_for_the_day_before_witness :
  Datetime.sub_days (mk_datetime 2024 3 1 0 0 0) 1
  = inr (mk_datetime 2024 2 29 0 0 0).
Proof.
  destruct (alarm_is_set_for_the_day_before st0 42 "01.03.2024" "bio"
              (mk_datetime 2024 3 1 0 0 0)) as [Hday _].
  - reflexivity.
  - apply bio_in_trashtypes.
  - discriminate.
  - exact Hday.
Defined.
